(** * la_forge.diagnostics: convergence diagnostics for MCMC chains

    A shallow embedding of the numerical core of [la_forge/diagnostics.py]:
    the parameter selection of [plot_chains], [compute_neff], the split
    R-hat statistic [grubin] and the calibration procedure [pp_plot].

    Conventions of the embedding.
    - A Python [int] is a [Z]; [/] on two Python ints raises
      [ZeroDivisionError] on a zero divisor, [//] and [%] are [Z.div] and
      [Z.modulo] (both round towards minus infinity, as in Python).
    - A binary64 sample is idealised as an exact rational ([Q]); equality of
      computed values is [Qeq].  NumPy's element-wise division does not raise:
      a zero divisor yields [inf] or [nan], which the type [npq] records.
    - [np.sqrt] of a rational is kept symbolic ([nproot]); its value as a
      real number is given by [root_value].
    - A 2-D [ndarray] is its shape together with its entries. *)

From Stdlib Require Import ZArith QArith Qreals List String Bool Lia Reals Psatz.
From Stdlib Require Import Sorted Permutation Ascii.
From stdpp Require Import gmap strings.
Import ListNotations.

(** Closed arithmetic side conditions, settled by evaluation. *)
Ltac closed_arith :=
  solve [ lia
        | vm_compute; first [ reflexivity | lia | discriminate
                            | intros ?; discriminate ] ].

(** ** Python outcomes *)

Module Py.

Inductive exn : Type :=
| ValueError
| ZeroDivisionError
| IndexError
| KeyError
| AttributeError
| UnboundLocalError.

Inductive outcome (A : Type) : Type :=
| Ret (a : A)
| Raise (e : exn).

Arguments Ret {A} a.
Arguments Raise {A} e.

Definition bind {A B : Type} (m : outcome A) (k : A -> outcome B) : outcome B :=
  match m with
  | Ret a => k a
  | Raise e => Raise e
  end.

(** [a / b] on two Python ints (true division). *)
Definition int_truediv (a b : Z) : outcome Q :=
  if (b =? 0)%Z then Raise ZeroDivisionError else Ret (inject_Z a / inject_Z b)%Q.

(** [seq[start:]] as an offset into a sequence of [len] items, for any
    (possibly negative) [start]. *)
Definition slice_start (len : nat) (start : Z) : nat :=
  if (start <? 0)%Z then Z.to_nat (Z.max 0 (Z.of_nat len + start))
  else Z.to_nat (Z.min start (Z.of_nat len)).

End Py.

Import Py.

#[global] Instance outcome_ret : MRet outcome := @Ret.
#[global] Instance outcome_bind : MBind outcome := fun A B k m => bind m k.

(** ** NumPy values and arrays *)

Module Np.

(** Result of an element-wise floating-point division. *)
Inductive npq : Type :=
| Finite (x : Q)
| PosInf
| NegInf
| NaN.

(** Result of [np.sqrt]. *)
Inductive nproot : Type :=
| SqrtOf (radicand : Q)
| RootInf
| RootNaN.

Definition Qltb (x y : Q) : bool := negb (Qle_bool y x).

Definition true_divide (x y : Q) : npq :=
  if Qeq_bool y 0 then
    (if Qltb 0 x then PosInf else if Qltb x 0 then NegInf else NaN)
  else Finite (x / y).

Definition sqrt (v : npq) : nproot :=
  match v with
  | Finite x => if Qltb x 0 then RootNaN else SqrtOf x
  | PosInf => RootInf
  | NegInf => RootNaN
  | NaN => RootNaN
  end.

(** [r > t] for a square root [r] and a finite [t]; comparisons with [nan]
    are false. *)
Definition root_gt (r : nproot) (t : Q) : bool :=
  match r with
  | SqrtOf x => Qltb t 0 || Qltb (t * t) x
  | RootInf => true
  | RootNaN => false
  end.


(** A 2-D array: shape and entries (row, column). *)
Record ndarray : Type := mk_ndarray {
  nrows : nat;
  ncols : nat;
  entry : nat -> nat -> Q
}.

(** [np.sum] of [f 0, ..., f (n-1)]. *)
Fixpoint sum_upto (n : nat) (f : nat -> Q) : Q :=
  match n with
  | O => 0
  | S k => sum_upto k f + f k
  end.

Definition qnat (n : nat) : Q := inject_Z (Z.of_nat n).

(** [np.mean] of [f 0, ..., f (n-1)]: the sum divided by the count, in
    exact arithmetic; NumPy rounds the sum and the quotient to binary64, so
    that, for instance, the mean of three times 0.1 is not 0.1 there.  For
    [n = 0] NumPy yields [nan]; the callers below raise before such a value
    could be returned. *)
Definition mean_upto (n : nat) (f : nat -> Q) : Q := sum_upto n f / qnat n.

(** [a[start:, :-2]]-style views. *)
Definition drop_rows (k : nat) (a : ndarray) : ndarray :=
  {| nrows := nrows a - k; ncols := ncols a;
     entry := fun r c => entry a (k + r) c |}.

Definition drop_last_cols (k : nat) (a : ndarray) : ndarray :=
  {| nrows := nrows a; ncols := ncols a - k; entry := entry a |}.

(** [np.concatenate([a, b])] along axis 0. *)
Definition concatenate (a b : ndarray) : outcome ndarray :=
  if (ncols a =? ncols b)%nat then
    Ret {| nrows := nrows a + nrows b; ncols := ncols a;
           entry := fun r c => if (r <? nrows a)%nat then entry a r c
                               else entry b (r - nrows a) c |}
  else Raise ValueError.

(** [np.split(a, sections)] along axis 0 with an integer [sections]. *)
Definition split (a : ndarray) (sections : Z) : outcome (list ndarray) :=
  if (sections =? 0)%Z then Raise ZeroDivisionError
  else if negb (Z.of_nat (nrows a) mod sections =? 0)%Z then Raise ValueError
  else if (sections <? 0)%Z then Raise ValueError
  else
    let len := (nrows a / Z.to_nat sections)%nat in
    Ret (map (fun m => {| nrows := len; ncols := ncols a;
                          entry := fun r c => entry a (m * len + r) c |})
             (seq 0 (Z.to_nat sections))).

(** Column [c] of [a] as a list. *)
Definition column (a : ndarray) (c : nat) : list Q :=
  map (fun r => entry a r c) (seq 0 (nrows a)).

End Np.

Import Np.

(** ** [grubin]: the split R-hat statistic *)

Module Grubin.

Local Open Scope Q_scope.

(** The [core] argument: one core, or a Python list of cores (each given by
    its [chain]). *)
Inductive core_arg : Type :=
| Core (chain : ndarray)
| CoreList (chains : list ndarray).

(** Lines 383-386. *)
Definition grubin_data (core : core_arg) : outcome ndarray :=
  match core with
  | CoreList [c0; c1] => concatenate c0 c1
  | CoreList _ => Raise AttributeError
  | Core c => Ret c
  end.

(** Lines 387-397: the adjusted burn-in and the [M] blocks.  The bare
    [except] catches whatever the first [np.split] raised; inside it,
    [len(data[:, 0])] (line 392) needs a column and is evaluated before the
    division by [M]. *)
Definition grubin_split (data : ndarray) (M : Z) : outcome (Z * list ndarray) :=
  let burn := 0%Z in
  let view (b : Z) :=
    drop_last_cols 2 (drop_rows (slice_start (nrows data) b) data) in
  match split (view burn) M with
  | Ret data_split => Ret (burn, data_split)
  | Raise _ =>
      if (ncols data =? 0)%nat then Raise IndexError
      else if (M =? 0)%Z then Raise ZeroDivisionError
      else
        let P := ((Z.of_nat (nrows data) - burn) / M)%Z in
        let X := (Z.of_nat (nrows data) - burn - M * P)%Z in
        let burn := (burn + X)%Z in
        data_split ← split (view burn) M;
        Ret (burn, data_split)
  end.

(** The local variables of [grubin] after line 413. *)
Record locals : Type := mk_locals {
  burn : Z;
  N : Z;
  blocks : list ndarray;
  block_len : nat;
  n_params : nat;
  theta_bar_dotm : nat -> nat -> Q;
  theta_bar_dotdot : nat -> Q;
  B : nat -> Q;
  sm_sq : nat -> nat -> Q;
  W : nat -> Q;
  var_post : nat -> Q;
  Rhat : list nproot
}.

(** [data[m, n, p]] of the stacked blocks. *)
Definition stacked (data_split : list ndarray) (m n p : nat) : Q :=
  match nth_error data_split m with
  | Some b => entry b n p
  | None => 0
  end.

Definition sq (x : Q) : Q := x * x.

(** Lines 387-413. *)
Definition grubin_locals (data : ndarray) (M : Z) : outcome locals :=
  '(burn, data_split) ← grubin_split data M;
  N ← (if (ncols data =? 0)%nat then Raise IndexError
        else Ret (Z.of_nat (nrows data - slice_start (nrows data) burn)));
  let nblocks := length data_split in
  let len := match data_split with b :: _ => nrows b | [] => O end in
  let P := match data_split with b :: _ => ncols b | [] => O end in
  let x := stacked data_split in
  let theta_bar_dotm := fun m p => mean_upto len (fun n => x m n p) in
  let theta_bar_dotdot := fun p => mean_upto nblocks (fun m => theta_bar_dotm m p) in
  kB ← int_truediv N (M - 1);
  let B := fun p =>
    kB * sum_upto nblocks (fun m => sq (theta_bar_dotm m p - theta_bar_dotdot p)) in
  kS ← int_truediv 1 (N - 1);
  let sm_sq := fun m p =>
    kS * sum_upto len (fun n => sq (x m n p - theta_bar_dotm m p)) in
  kW ← int_truediv 1 M;
  let W := fun p => kW * sum_upto nblocks (fun m => sm_sq m p) in
  c1 ← int_truediv (N - 1) N;
  c2 ← int_truediv 1 N;
  let var_post := fun p => c1 * W p + c2 * B p in
  let Rhat := map (fun p => Np.sqrt (true_divide (var_post p) (W p))) (seq 0 P) in
  Ret {| burn := burn; N := N; blocks := data_split; block_len := len;
         n_params := P; theta_bar_dotm := theta_bar_dotm;
         theta_bar_dotdot := theta_bar_dotdot; B := B; sm_sq := sm_sq;
         W := W; var_post := var_post; Rhat := Rhat |}.

(** [np.where(Rhat > threshold)[0]]. *)
Definition where_gt (v : list nproot) (threshold : Q) : list nat :=
  List.filter (fun i => match nth_error v i with
                   | Some r => root_gt r threshold
                   | None => false
                   end) (seq 0 (length v)).

Definition grubin (core : core_arg) (M : Z) (threshold : Q)
  : outcome (list nproot * list nat) :=
  data ← grubin_data core;
  l ← grubin_locals data M;
  Ret (Rhat l, where_gt (Rhat l) threshold).

(** *** The formulas of the specification

    Section 4.2 of the specification, step by step, on [M] blocks of [n]
    rows each; [n] is the number of rows per block.  These follow the
    specification's wording and are compared with [grubin_locals] below. *)
Section SpecFormulas.
Variable data_split : list ndarray.
Variable n : nat.

Let M : nat := length data_split.
Let x := stacked data_split.

Definition spec_theta_bar_dotm (m p : nat) : Q :=
  mean_upto n (fun i => x m i p).
Definition spec_theta_bar_dotdot (p : nat) : Q :=
  mean_upto M (fun m => spec_theta_bar_dotm m p).
Definition spec_B (p : nat) : Q :=
  qnat n / (qnat M - 1) *
  sum_upto M (fun m => sq (spec_theta_bar_dotm m p - spec_theta_bar_dotdot p)).
Definition spec_sm_sq (m p : nat) : Q :=
  1 / (qnat n - 1) *
  sum_upto n (fun i => sq (x m i p - spec_theta_bar_dotm m p)).
Definition spec_W (p : nat) : Q :=
  mean_upto M (fun m => spec_sm_sq m p).
Definition spec_var_post (p : nat) : Q :=
  (qnat n - 1) / qnat n * spec_W p + 1 / qnat n * spec_B p.
Definition spec_Rhat (p : nat) : nproot :=
  Np.sqrt (true_divide (spec_var_post p) (spec_W p)).
End SpecFormulas.

(** The blocks [np.split] cuts out of [data[k:, :-2]]. *)
Definition blocks_from (data : ndarray) (k : nat) (M : Z) : list ndarray :=
  let len := ((nrows data - k) / Z.to_nat M)%nat in
  map (fun m => {| nrows := len; ncols := (ncols data - 2)%nat;
                   entry := fun r c => entry data (k + (m * len + r)) c |})
      (seq 0 (Z.to_nat M)).

(** *** Helper lemmas *)

Lemma slice_start_nonneg (len : nat) (b : Z) :
  (0 <= b <= Z.of_nat len)%Z -> slice_start len b = Z.to_nat b.
Proof.
  intros Hb. unfold slice_start.
  destruct (b <? 0)%Z eqn:E; [apply Z.ltb_lt in E; lia|].
  f_equal. lia.
Qed.

Lemma mod_bounds (r : nat) (M : Z) :
  (0 < M)%Z -> (0 <= Z.of_nat r mod M <= Z.of_nat r)%Z.
Proof.
  intros HM. split; [apply Z.mod_pos_bound; lia|].
  apply Z.mod_le; lia.
Qed.

Lemma grubin_split_pos (data : ndarray) (M : Z) :
  (0 < M)%Z -> ncols data <> O ->
  grubin_split data M =
    Ret ((Z.of_nat (nrows data) mod M)%Z,
         blocks_from data (Z.to_nat (Z.of_nat (nrows data) mod M)) M).
Proof.
  intros HM Hc. unfold grubin_split, split. cbv zeta. simpl nrows.
  assert (Ec : (ncols data =? 0)%nat = false) by (now apply Nat.eqb_neq).
  rewrite Ec.
  pose proof (mod_bounds (nrows data) M HM) as Hb.
  assert (H0 : slice_start (nrows data) 0 = O)
    by (rewrite slice_start_nonneg; [reflexivity | lia]).
  rewrite H0.
  destruct (M =? 0)%Z eqn:EM; [apply Z.eqb_eq in EM; lia|].
  replace (nrows data - 0)%nat with (nrows data) by lia.
  destruct (Z.of_nat (nrows data) mod M =? 0)%Z eqn:E0; cbn [negb].
  - destruct (M <? 0)%Z eqn:EM'; [apply Z.ltb_lt in EM'; lia|].
    apply Z.eqb_eq in E0. rewrite E0.
    unfold blocks_from. change (Z.to_nat 0) with O.
    replace (nrows data - 0)%nat with (nrows data) by lia.
    reflexivity.
  - replace (0 + (Z.of_nat (nrows data) - 0 - M * ((Z.of_nat (nrows data) - 0) / M)))%Z
      with (Z.of_nat (nrows data) mod M)%Z
      by (rewrite Z.sub_0_r, Z.mod_eq by lia; lia).
    rewrite slice_start_nonneg by lia.
    set (k := Z.to_nat (Z.of_nat (nrows data) mod M)).
    assert (Hk : (Z.of_nat (nrows data - k) mod M = 0)%Z).
    { subst k. rewrite Nat2Z.inj_sub by lia. rewrite Z2Nat.id by lia.
      rewrite Zminus_mod_idemp_r. rewrite Z.sub_diag. apply Z.mod_0_l. lia. }
    rewrite Hk. cbn [Z.eqb negb].
    destruct (M <? 0)%Z eqn:EM'; [apply Z.ltb_lt in EM'; lia|].
    reflexivity.
Qed.

Lemma blocks_from_length (data : ndarray) (k : nat) (M : Z) :
  length (blocks_from data k M) = Z.to_nat M.
Proof. unfold blocks_from. now rewrite length_map, length_seq. Qed.

Lemma blocks_from_nth (data : ndarray) (k : nat) (M : Z) (m : nat) :
  (m < Z.to_nat M)%nat ->
  nth_error (blocks_from data k M) m =
    Some {| nrows := ((nrows data - k) / Z.to_nat M)%nat;
            ncols := (ncols data - 2)%nat;
            entry := fun r c =>
              entry data (k + (m * ((nrows data - k) / Z.to_nat M) + r)) c |}.
Proof.
  intros Hm. unfold blocks_from. cbv zeta.
  rewrite nth_error_map, nth_error_seq.
  destruct (m <? Z.to_nat M)%nat eqn:E; [reflexivity|].
  apply Nat.ltb_ge in E. lia.
Qed.

Lemma stacked_blocks_from (data : ndarray) (k : nat) (M : Z) (m n p : nat) :
  (m < Z.to_nat M)%nat ->
  stacked (blocks_from data k M) m n p =
    entry data (k + (m * ((nrows data - k) / Z.to_nat M) + n)) p.
Proof.
  intros Hm. unfold stacked. now rewrite blocks_from_nth.
Qed.

Lemma blocks_from_shape (data : ndarray) (k : nat) (M : Z) :
  (0 < M)%Z ->
  match blocks_from data k M with b :: _ => nrows b | [] => O end
    = ((nrows data - k) / Z.to_nat M)%nat /\
  match blocks_from data k M with b :: _ => ncols b | [] => O end
    = (ncols data - 2)%nat.
Proof.
  intros HM. unfold blocks_from. cbv zeta.
  destruct (Z.to_nat M) as [|j] eqn:E; [lia|].
  cbn [seq map nrows ncols]. split; reflexivity.
Qed.

(** What [grubin] computes once the split has succeeded, with the five
    scalar quotients of lines 406-412 spelled out. *)
Lemma grubin_locals_ok (data : ndarray) (M : Z) :
  (2 <= M)%Z -> ncols data <> O -> (M <= Z.of_nat (nrows data))%Z ->
  exists l, grubin_locals data M = Ret l /\
    burn l = (Z.of_nat (nrows data) mod M)%Z /\
    N l = (Z.of_nat (nrows data) - Z.of_nat (nrows data) mod M)%Z /\
    blocks l = blocks_from data (Z.to_nat (burn l)) M /\
    block_len l = ((nrows data - Z.to_nat (burn l)) / Z.to_nat M)%nat /\
    n_params l = (ncols data - 2)%nat /\
    (forall m p, theta_bar_dotm l m p =
       mean_upto (block_len l) (fun n => stacked (blocks l) m n p)) /\
    (forall p, theta_bar_dotdot l p =
       mean_upto (Z.to_nat M) (fun m => theta_bar_dotm l m p)) /\
    (forall p, B l p =
       inject_Z (N l) / inject_Z (M - 1) *
       sum_upto (Z.to_nat M)
         (fun m => sq (theta_bar_dotm l m p - theta_bar_dotdot l p))) /\
    (forall m p, sm_sq l m p =
       inject_Z 1 / inject_Z (N l - 1) *
       sum_upto (block_len l)
         (fun n => sq (stacked (blocks l) m n p - theta_bar_dotm l m p))) /\
    (forall p, W l p =
       inject_Z 1 / inject_Z M * sum_upto (Z.to_nat M) (fun m => sm_sq l m p)) /\
    (forall p, var_post l p =
       inject_Z (N l - 1) / inject_Z (N l) * W l p +
       inject_Z 1 / inject_Z (N l) * B l p) /\
    Rhat l = map (fun p => Np.sqrt (true_divide (var_post l p) (W l p)))
                 (seq 0 (n_params l)).
Proof.
  intros HM Hc HR.
  pose proof (mod_bounds (nrows data) M ltac:(lia)) as Hb.
  assert (Hlt : (Z.of_nat (nrows data) mod M < M)%Z)
    by (apply Z.mod_pos_bound; lia).
  unfold grubin_locals. rewrite grubin_split_pos by lia.
  cbn [mbind outcome_bind bind].
  destruct (ncols data =? 0)%nat eqn:Ec; [apply Nat.eqb_eq in Ec; lia|].
  rewrite slice_start_nonneg by lia.
  set (k := Z.to_nat (Z.of_nat (nrows data) mod M)).
  assert (HN : Z.of_nat (nrows data - k) =
               (Z.of_nat (nrows data) - Z.of_nat (nrows data) mod M)%Z)
    by (subst k; lia).
  assert (HNM : (M <= Z.of_nat (nrows data - k))%Z).
  { rewrite HN. rewrite Z.mod_eq by lia.
    assert (1 <= Z.of_nat (nrows data) / M)%Z
      by (apply Z.div_le_lower_bound; lia).
    nia. }
  destruct (blocks_from_shape data k M ltac:(lia)) as [Hlen HP].
  rewrite Hlen, HP, blocks_from_length.
  unfold int_truediv.
  assert (E1 : (M - 1 =? 0)%Z = false) by (apply Z.eqb_neq; lia).
  assert (E2 : (Z.of_nat (nrows data - k) - 1 =? 0)%Z = false)
    by (apply Z.eqb_neq; lia).
  assert (E3 : (M =? 0)%Z = false) by (apply Z.eqb_neq; lia).
  assert (E4 : (Z.of_nat (nrows data - k) =? 0)%Z = false)
    by (apply Z.eqb_neq; lia).
  repeat (cbn [mbind outcome_bind bind]; rewrite ?E1, ?E2, ?E3, ?E4).
  eexists. split; [reflexivity|].
  cbn [burn N blocks block_len n_params theta_bar_dotm theta_bar_dotdot
       B sm_sq W var_post Rhat].
  rewrite HN. fold k.
  repeat split; reflexivity.
Qed.

(** Sums of rationals. *)
Lemma sum_upto_ext (n : nat) (f g : nat -> Q) :
  (forall i, (i < n)%nat -> f i == g i) -> sum_upto n f == sum_upto n g.
Proof.
  induction n as [|n IH]; intros H; cbn [sum_upto]; [reflexivity|].
  rewrite IH by (intros i Hi; apply H; lia).
  rewrite (H n) by lia. reflexivity.
Qed.


Lemma sum_upto_nonneg (n : nat) (f : nat -> Q) :
  (forall i, (i < n)%nat -> 0 <= f i) -> 0 <= sum_upto n f.
Proof.
  induction n as [|n IH]; intros H; cbn [sum_upto]; [apply Qle_refl|].
  assert (0 <= sum_upto n f) by (apply IH; intros i Hi; apply H; lia).
  assert (0 <= f n) by (apply H; lia).
  lra.
Qed.


Lemma sq_nonneg (x : Q) : 0 <= sq x.
Proof. unfold sq. nra. Qed.

Lemma sq_pos (x : Q) : ~ x == 0 -> 0 < sq x.
Proof.
  intros Hx. unfold sq.
  destruct (Qlt_le_dec 0 x) as [H|H]; [nra|].
  destruct (Qlt_le_dec x 0) as [H'|H']; [nra|].
  exfalso. apply Hx. lra.
Qed.

Lemma qnat_pos (n : nat) : (0 < n)%nat -> 0 < qnat n.
Proof.
  intros Hn. unfold qnat. change 0 with (inject_Z 0).
  rewrite <- Zlt_Qlt. lia.
Qed.



(** With [M = 1] the quotient [N / (M - 1)] of line 406 raises. *)
Lemma grubin_locals_one (data : ndarray) :
  ncols data <> O -> grubin_locals data 1 = Raise ZeroDivisionError.
Proof.
  intros Hc. unfold grubin_locals. rewrite grubin_split_pos by lia.
  cbn [mbind outcome_bind bind].
  destruct (ncols data =? 0)%nat eqn:Ec; [apply Nat.eqb_eq in Ec; lia|].
  cbn [mbind outcome_bind bind]. reflexivity.
Qed.

(** A small chain used to exercise the statements below: four rows, one
    retained column and the two trailing bookkeeping columns. *)
Definition chain4 : ndarray :=
  {| nrows := 4; ncols := 3;
     entry := fun r c => match c with
                         | O => nth r [0; 2; 4; 10] 0
                         | _ => 0
                         end |}.


(** *** The adjusted burn-in *)

(** C2: for every chain with a column, of R rows, and every M >= 2, the
    split of lines 387-397 succeeds with a burn-in [burn] such that
    (R - burn) % M == 0 and 0 <= burn < M; [burn] is the least number of
    rows whose removal makes the row count divisible by M, and it is 0 when
    M already divides R.  The rows that are dropped are the leading ones:
    the M blocks have (R - burn) / M rows each, without the last two
    columns, and row [n] of block [m] is row burn + m * (R - burn) / M + n
    of the chain.  [burn] and these blocks are what the rest of [grubin]
    uses.  (On a chain without any column, line 392 raises [IndexError]
    when M does not divide R.) *)
Theorem grubin_burn_divisible (data : ndarray) (M : Z) :
  (2 <= M)%Z -> ncols data <> O ->
  let R := Z.of_nat (nrows data) in
  exists burn' data_split,
    grubin_split data M = Ret (burn', data_split) /\
    ((R - burn') mod M = 0)%Z /\
    (0 <= burn' < M)%Z /\
    (burn' <= R)%Z /\
    (forall b, (0 <= b)%Z -> ((R - b) mod M = 0)%Z -> (burn' <= b)%Z) /\
    ((R mod M = 0)%Z -> burn' = 0%Z) /\
    Z.of_nat (length data_split) = M /\
    (forall b, In b data_split ->
       Z.of_nat (nrows b) = ((R - burn') / M)%Z /\
       ncols b = (ncols data - 2)%nat) /\
    (forall m n p, (m < Z.to_nat M)%nat ->
       (n < Z.to_nat ((R - burn') / M))%nat ->
       stacked data_split m n p =
         entry data
           (Z.to_nat burn' + (m * Z.to_nat ((R - burn') / M) + n))%nat p) /\
    (forall l, grubin_locals data M = Ret l ->
       burn l = burn' /\ blocks l = data_split).
Proof.
  intros HM Hc R.
  pose proof (mod_bounds (nrows data) M ltac:(lia)) as Hb.
  assert (Hlt : (0 <= R mod M < M)%Z) by (apply Z.mod_pos_bound; lia).
  set (k := Z.to_nat (R mod M)).
  assert (Hlen : Z.to_nat ((R - R mod M) / M) =
                 ((nrows data - k) / Z.to_nat M)%nat).
  { apply Nat2Z.inj. rewrite Nat2Z.inj_div, !Z2Nat.id; try lia.
    - f_equal. subst k R. lia.
    - apply Z.div_pos; subst R; lia. }
  exists (R mod M)%Z, (blocks_from data k M).
  split; [apply grubin_split_pos; [lia | exact Hc]|].
  split.
  { rewrite Zminus_mod_idemp_r, Z.sub_diag. apply Z.mod_0_l. lia. }
  split; [exact Hlt|].
  split; [subst R; lia|].
  split.
  { intros b Hb0 Hdiv.
    apply Z.mod_divide in Hdiv; [|lia]. destruct Hdiv as [q Hq].
    replace R with (b + q * M)%Z by lia.
    rewrite Z.mod_add by lia.
    apply Z.mod_le; lia. }
  split; [intros H0; exact H0|].
  split; [rewrite blocks_from_length; lia|].
  split.
  { intros b Hin. unfold blocks_from in Hin. cbv zeta in Hin.
    apply in_map_iff in Hin. destruct Hin as [m [Hm _]]. subst b.
    cbn [nrows ncols]. split; [|reflexivity].
    rewrite Nat2Z.inj_div, Z2Nat.id by lia.
    f_equal. subst k R. lia. }
  split.
  { intros m n p Hm Hn. rewrite stacked_blocks_from by exact Hm.
    fold k. now rewrite Hlen. }
  intros l Hl. unfold grubin_locals in Hl.
  rewrite grubin_split_pos in Hl by lia.
  cbn [mbind outcome_bind bind] in Hl.
  destruct (ncols data =? 0)%nat; cbn [mbind outcome_bind bind] in Hl;
    [discriminate|].
  repeat match type of Hl with
  | context [int_truediv ?a ?b] =>
      destruct (int_truediv a b); cbn [mbind outcome_bind bind] in Hl;
      [|discriminate]
  end.
  injection Hl as <-. split; reflexivity.
Qed.

Lemma grubin_burn_divisible_witness :
  ((2 <= 2)%Z /\ ncols chain4 <> O) /\
  let R := Z.of_nat (nrows chain4) in
  exists burn' data_split,
    grubin_split chain4 2 = Ret (burn', data_split) /\
    ((R - burn') mod 2 = 0)%Z /\
    (0 <= burn' < 2)%Z /\
    (burn' <= R)%Z /\
    (forall b, (0 <= b)%Z -> ((R - b) mod 2 = 0)%Z -> (burn' <= b)%Z) /\
    ((R mod 2 = 0)%Z -> burn' = 0%Z) /\
    Z.of_nat (length data_split) = 2%Z /\
    (forall b, In b data_split ->
       Z.of_nat (nrows b) = ((R - burn') / 2)%Z /\
       ncols b = (ncols chain4 - 2)%nat) /\
    (forall m n p, (m < Z.to_nat 2)%nat ->
       (n < Z.to_nat ((R - burn') / 2))%nat ->
       stacked data_split m n p =
         entry chain4
           (Z.to_nat burn' + (m * Z.to_nat ((R - burn') / 2) + n))%nat p) /\
    (forall l, grubin_locals chain4 2 = Ret l ->
       burn l = burn' /\ blocks l = data_split).
Proof.
  split; [split; [lia | discriminate]|].
  apply (grubin_burn_divisible chain4 2); [lia | discriminate].
Defined.

(** *** The row count [N] *)

(** The values of the locals that the formulas of [grubin] and of the
    specification give for column [p]. *)
Definition snapshot (l : locals) (p : nat) :=
  (block_len l, N l, B l p, spec_B (blocks l) (block_len l) p,
   W l p, spec_W (blocks l) (block_len l) p,
   var_post l p, spec_var_post (blocks l) (block_len l) p,
   nth_error (Rhat l) p, spec_Rhat (blocks l) (block_len l) p).


(** [N] is taken from the unsplit [data[burn:, 0]] (line 399): it counts all
    retained rows, M times the rows of one block. *)
Lemma grubin_N_counts_all_rows (data : ndarray) (M : Z) (l : locals) :
  (2 <= M)%Z -> grubin_locals data M = Ret l ->
  N l = (M * Z.of_nat (block_len l))%Z /\
  N l = (Z.of_nat (nrows data) - burn l)%Z.
Proof.
  intros HM Hl. unfold grubin_locals in Hl.
  assert (Hc : ncols data <> O).
  { intros Hc0. destruct (grubin_split data M) as [[b ds]|e];
      cbn [mbind outcome_bind bind] in Hl; [|discriminate].
    rewrite Hc0 in Hl. discriminate. }
  rewrite grubin_split_pos in Hl by lia.
  cbn [mbind outcome_bind bind] in Hl.
  destruct (ncols data =? 0)%nat; cbn [mbind outcome_bind bind] in Hl;
    [discriminate|].
  repeat match type of Hl with
  | context [int_truediv ?a ?b] =>
      destruct (int_truediv a b); cbn [mbind outcome_bind bind] in Hl;
      [|discriminate]
  end.
  injection Hl as <-. cbn [N block_len burn].
  pose proof (mod_bounds (nrows data) M ltac:(lia)) as Hb.
  rewrite slice_start_nonneg by lia.
  destruct (blocks_from_shape data
              (Z.to_nat (Z.of_nat (nrows data) mod M)) M ltac:(lia))
    as [-> _].
  set (k := Z.to_nat (Z.of_nat (nrows data) mod M)).
  assert (HN : Z.of_nat (nrows data - k) =
               (Z.of_nat (nrows data) - Z.of_nat (nrows data) mod M)%Z)
    by (subst k; lia).
  split; [|exact HN].
  rewrite Nat2Z.inj_div, Z2Nat.id, HN by lia.
  rewrite (Z.mod_eq (Z.of_nat (nrows data)) M) by lia.
  replace (Z.of_nat (nrows data) -
           (Z.of_nat (nrows data) - M * (Z.of_nat (nrows data) / M)))%Z
    with (Z.of_nat (nrows data) / M * M)%Z by lia.
  rewrite Z.div_mul by lia. lia.
Qed.

(** C1 fails on the code: on the four rows [0; 2; 4; 10] split in two,
    [grubin] uses N = 4, the number of retained rows, where a block has 2
    rows; it computes B = 72, W = 10/3, var_post = 41/2 and
    Rhat = sqrt(123/20), whereas the formulas with N the number of rows per
    block and W the mean of the per-block sample variances give B = 36,
    W = 10, var_post = 23 and Rhat = sqrt(23/10). *)
Theorem grubin_uses_total_row_count :
  exists l r r',
    grubin_locals chain4 2 = Ret l /\
    block_len l = 2%nat /\ N l = 4%Z /\
    B l 0 == 72 /\ spec_B (blocks l) (block_len l) 0 == 36 /\
    W l 0 == 10 # 3 /\ spec_W (blocks l) (block_len l) 0 == 10 /\
    var_post l 0 == 41 # 2 /\
    spec_var_post (blocks l) (block_len l) 0 == 23 /\
    nth_error (Rhat l) 0 = Some (SqrtOf r) /\ r == 123 # 20 /\
    spec_Rhat (blocks l) (block_len l) 0 = SqrtOf r' /\ r' == 23 # 10 /\
    ~ r == r'.
Proof.
  pose (s := match grubin_locals chain4 2 with
             | Ret l => Some (snapshot l 0)
             | Raise _ => None
             end).
  assert (Hs : s = ltac:(let t := eval unfold s in s in
                         let v := eval vm_compute in t in exact v))
    by (vm_compute; reflexivity).
  unfold s in Hs.
  destruct (grubin_locals chain4 2) as [l|e]; [|discriminate].
  apply (inj Some) in Hs. unfold snapshot in Hs.
  apply pair_equal_spec in Hs; destruct Hs as [Hs HsR].
  apply pair_equal_spec in Hs; destruct Hs as [Hs HR].
  apply pair_equal_spec in Hs; destruct Hs as [Hs Hsvp].
  apply pair_equal_spec in Hs; destruct Hs as [Hs Hvp].
  apply pair_equal_spec in Hs; destruct Hs as [Hs HsW].
  apply pair_equal_spec in Hs; destruct Hs as [Hs HW].
  apply pair_equal_spec in Hs; destruct Hs as [Hs HsB].
  apply pair_equal_spec in Hs; destruct Hs as [Hs HB].
  apply pair_equal_spec in Hs; destruct Hs as [Hlen HN].
  eexists l, _, _. split; [reflexivity|].
  rewrite HB, HsB, HW, HsW, Hvp, Hsvp, HR, HsR, Hlen, HN.
  repeat split; try reflexivity. closed_arith.
Qed.

(** *** Identical blocks *)






(** *** Division by zero *)

(** C10: for every input with M >= 2, at least M rows, more than two columns
    and at least two rows per block, the divisors (M - 1), M, N and (N - 1)
    of lines 406-412 are all nonzero and [grubin] returns a result instead of
    raising [ZeroDivisionError]; with M = 1 the guarantee is lost: [grubin]
    raises [ZeroDivisionError] on every chain that has a column. *)
Theorem grubin_divisors_nonzero (data : ndarray) (M : Z) (threshold : Q) :
  (2 <= M)%Z ->
  (M <= Z.of_nat (nrows data))%Z ->
  (2 < ncols data)%nat ->
  (2 <= Z.of_nat (nrows data) / M)%Z ->
  (exists l, grubin_locals data M = Ret l /\
     (M - 1 <> 0)%Z /\ (M <> 0)%Z /\ (N l <> 0)%Z /\ (N l - 1 <> 0)%Z /\
     grubin (Core data) M threshold =
       Ret (Rhat l, where_gt (Rhat l) threshold)) /\
  (forall data1 t, ncols data1 <> O ->
     grubin (Core data1) 1 t = Raise ZeroDivisionError).
Proof.
  intros HM HR Hc Hrows. split.
  - destruct (grubin_locals_ok data M HM ltac:(lia) HR)
      as [l [Hl [_ [HN _]]]].
    exists l. split; [exact Hl|].
    assert (HNM : (M <= N l)%Z).
    { rewrite HN. rewrite Z.mod_eq by lia. nia. }
    repeat split; try lia.
    unfold grubin. cbn [grubin_data mbind outcome_bind bind].
    rewrite Hl. reflexivity.
  - intros data1 t Hc1. unfold grubin.
    cbn [grubin_data mbind outcome_bind bind].
    rewrite grubin_locals_one by exact Hc1. reflexivity.
Qed.

Lemma grubin_divisors_nonzero_witness :
  ((2 <= 2)%Z /\ (2 <= Z.of_nat (nrows chain4))%Z /\
   (2 < ncols chain4)%nat /\ (2 <= Z.of_nat (nrows chain4) / 2)%Z) /\
  (exists l, grubin_locals chain4 2 = Ret l /\
     (2 - 1 <> 0)%Z /\ (2 <> 0)%Z /\ (N l <> 0)%Z /\ (N l - 1 <> 0)%Z /\
     grubin (Core chain4) 2 (101 # 100) =
       Ret (Rhat l, where_gt (Rhat l) (101 # 100))) /\
  (forall data1 t, ncols data1 <> O ->
     grubin (Core data1) 1 t = Raise ZeroDivisionError).
Proof.
  split.
  - repeat split; closed_arith.
  - apply (grubin_divisors_nonzero chain4 2 (101 # 100)); closed_arith.
Defined.

End Grubin.

(** ** [plot_chains]: which parameters are plotted *)

Module PlotChains.

(** The [core] argument: one core, or a Python list of cores, each given by
    its [params]. *)
Inductive core_arg : Type :=
| Core (params : list string)
| CoreList (cores : list (list string)).

(** [params.remove(p)]: drops the first occurrence, [ValueError] if there is
    none. *)
Fixpoint list_remove (p : string) (params : list string) : outcome (list string) :=
  match params with
  | [] => Raise ValueError
  | x :: rest =>
      if String.eqb x p then Ret rest
      else (rest' ← list_remove p rest; Ret (x :: rest'))
  end.

(** [for p in exclude: params.remove(p)]. *)
Fixpoint remove_all (exclude params : list string) : outcome (list string) :=
  match exclude with
  | [] => Ret params
  | p :: rest => params' ← list_remove p params; remove_all rest params'
  end.

Definition is_given {A : Type} (arg : option A) : bool :=
  match arg with Some _ => true | None => false end.

Definition mem (p : string) (l : list string) : bool :=
  existsb (String.eqb p) l.

(** Lines 79-99, branch by branch in the order of the source; [pars] and
    [exclude] are [None] when the keyword is left at its default. *)
Definition plot_chains_params (core : core_arg) (pars exclude : option (list string))
  : outcome (list string) :=
  if is_given pars then
    match pars with Some params => Ret params | None => Raise UnboundLocalError end
  else if is_given exclude && is_given pars then
    Raise ValueError
  else if is_given exclude then
    let params :=
      match core with
      | CoreList cores =>
          elements (fold_left (fun (s : gset string) c => s ∩ list_to_set c)
                              cores (∅ : gset string))
      | Core params => params
      end in
    match exclude with
    | Some excl => remove_all excl params
    | None => Raise UnboundLocalError
    end
  else if negb (is_given pars) && negb (is_given exclude) then
    match core with
    | CoreList [] => Raise IndexError
    | CoreList (c0 :: rest) =>
        Ret (fold_left (fun params c => List.filter (fun p => mem p c) params)
                       rest c0)
    | Core params => Ret params
    end
  else Raise UnboundLocalError.

(** C8 fails on the code: when both [pars] and [exclude] are given, the
    first branch ([pars is not None]) is taken, so the [raise ValueError] of
    the second branch is never reached; the call goes on with [pars] and
    ignores [exclude]. *)
Theorem plot_chains_both_given (core : core_arg) (pars exclude : list string) :
  plot_chains_params core (Some pars) (Some exclude) = Ret pars /\
  plot_chains_params core (Some pars) (Some exclude) <> Raise ValueError.
Proof. split; [reflexivity | discriminate]. Qed.

(** A [ValueError] can only come out of [params.remove(p)] in the branch
    where [exclude] alone is given. *)
Lemma plot_chains_value_error_only_from_remove
    (core : core_arg) (pars exclude : option (list string)) :
  plot_chains_params core pars exclude = Raise ValueError ->
  pars = None /\ exists excl, exclude = Some excl.
Proof.
  destruct pars as [ps|]; [discriminate|].
  destruct exclude as [ex|]; [intros _; eauto|].
  unfold plot_chains_params. cbn.
  destruct core as [ps|[|c0 rest]]; discriminate.
Qed.

End PlotChains.

(** ** [compute_neff]: effective sample sizes *)

Module ComputeNeff.

Local Open Scope Q_scope.

(** A core as [compute_neff] uses it: the parameter names and the samples
    [core(p)] of each. *)
Record core : Type := mk_core {
  params : list string;
  samples : string -> list Q
}.

Definition bookkeeping : list string :=
  ["lnpost"; "lnlike"; "chain_accept"; "pt_chain_accept"]%string.

(** [n / tau] for a Python int [n] and a NumPy float [tau]: no exception,
    [nan] for a [nan] divisor, 0 for an infinite one. *)
Definition int_over_float (n : Q) (tau : npq) : npq :=
  match tau with
  | Finite t => true_divide n t
  | PosInf => Finite 0
  | NegInf => Finite 0
  | NaN => NaN
  end.

Section Estimator.

(** [emcee.autocorr.integrated_time(chain, quiet=True)[0]], an external
    routine: any function of the sample sequence into the floats, [nan]
    and the infinities included (on a constant chain the estimate is
    [nan]). *)
Variable integrated_time : list Q -> npq.

(** [len(chain) / integrated_time(chain, quiet=True)[0]]: a NumPy
    floating-point quotient. *)
Definition neff_of (chain : list Q) : npq :=
  int_over_float (qnat (length chain)) (integrated_time chain).

(** Lines 335-341. *)
Definition compute_neff (c : core) : gmap string npq :=
  fold_left
    (fun (neffs : gmap string npq) p =>
       if PlotChains.mem p bookkeeping then neffs
       else <[p := neff_of (samples c p)]> neffs)
    (params c) ∅.

Lemma mem_elem_of (p : string) (l : list string) :
  PlotChains.mem p l = true <-> p ∈ l.
Proof.
  unfold PlotChains.mem. rewrite existsb_exists, list_elem_of_In. split.
  - intros [x [Hin Heq]]. apply String.eqb_eq in Heq. now subst.
  - intros Hin. exists p. split; [exact Hin | apply String.eqb_refl].
Qed.

Lemma compute_neff_lookup_acc (c : core) (ps : list string)
    (acc : gmap string npq) (p : string) :
  fold_left
    (fun (neffs : gmap string npq) x =>
       if PlotChains.mem x bookkeeping then neffs
       else <[x := neff_of (samples c x)]> neffs) ps acc !! p =
  if PlotChains.mem p ps && negb (PlotChains.mem p bookkeeping)
  then Some (neff_of (samples c p)) else acc !! p.
Proof.
  revert acc. induction ps as [|x ps IH]; intros acc; [reflexivity|].
  cbn [fold_left]. rewrite IH.
  change (PlotChains.mem p (x :: ps))
    with (String.eqb p x || PlotChains.mem p ps)%bool.
  destruct (PlotChains.mem p bookkeeping) eqn:Ebk; cbn [negb];
    rewrite ?andb_true_r, ?andb_false_r.
  - destruct (PlotChains.mem x bookkeeping) eqn:Ex; [reflexivity|].
    rewrite lookup_insert_ne; [reflexivity|]. intros ->. congruence.
  - destruct (PlotChains.mem p ps);
      rewrite ?orb_true_r, ?orb_false_r; [reflexivity|].
    destruct (String.eqb p x) eqn:Epx.
    + apply String.eqb_eq in Epx. subst x. rewrite Ebk.
      now rewrite lookup_insert_eq.
    + apply String.eqb_neq in Epx.
      destruct (PlotChains.mem x bookkeeping); [reflexivity|].
      rewrite lookup_insert_ne; [reflexivity | congruence].
Qed.

Lemma compute_neff_lookup (c : core) (p : string) :
  compute_neff c !! p =
  if PlotChains.mem p (params c) && negb (PlotChains.mem p bookkeeping)
  then Some (neff_of (samples c p)) else None.
Proof. unfold compute_neff. now rewrite compute_neff_lookup_acc. Qed.

(** C5: the keys of the mapping that [compute_neff] returns are exactly the
    parameter names of the chain without the four bookkeeping names; the
    value of a retained parameter is the length of its sample sequence
    divided by its integrated autocorrelation time, as floats divide: a
    finite quotient when that time is finite and nonzero, [nan] when it is
    [nan]; no bookkeeping name is a key. *)
Theorem compute_neff_keys_and_values (c : core) :
  dom (compute_neff c) =
    (list_to_set (params c) : gset string) ∖ list_to_set bookkeeping /\
  (forall p, p ∈ params c -> p ∉ bookkeeping ->
     compute_neff c !! p =
       Some (int_over_float (qnat (length (samples c p)))
                            (integrated_time (samples c p))) /\
     (forall tau, integrated_time (samples c p) = Finite tau ->
        ~ tau == 0 ->
        compute_neff c !! p =
          Some (Finite (qnat (length (samples c p)) / tau))) /\
     (integrated_time (samples c p) = NaN ->
      compute_neff c !! p = Some NaN)) /\
  (forall p, p ∈ bookkeeping -> compute_neff c !! p = None) /\
  (forall p, p ∉ params c -> compute_neff c !! p = None).
Proof.
  split; [|split; [|split]].
  - apply set_eq. intros p.
    rewrite elem_of_dom, compute_neff_lookup, elem_of_difference.
    rewrite !elem_of_list_to_set, <- !mem_elem_of.
    destruct (PlotChains.mem p (params c));
      destruct (PlotChains.mem p bookkeeping); cbn [andb negb]; split;
      try (intros [v Hv]; discriminate);
      try (intros [H1 H2]; try discriminate; exfalso; now apply H2).
    + intros _. split; [reflexivity | discriminate].
    + intros _. eexists. reflexivity.
  - intros p Hin Hbk. rewrite compute_neff_lookup.
    apply mem_elem_of in Hin. rewrite Hin.
    destruct (PlotChains.mem p bookkeeping) eqn:E;
      [apply mem_elem_of in E; contradiction|].
    cbn [andb negb]. split; [reflexivity|]. split.
    + intros tau Htau Hne. unfold neff_of. rewrite Htau.
      cbn [int_over_float]. unfold true_divide.
      destruct (Qeq_bool tau 0) eqn:E0;
        [apply Qeq_bool_iff in E0; contradiction | reflexivity].
    + intros Hnan. unfold neff_of. now rewrite Hnan.
  - intros p Hbk. rewrite compute_neff_lookup.
    apply mem_elem_of in Hbk. rewrite Hbk.
    now rewrite andb_false_r.
  - intros p Hnin. rewrite compute_neff_lookup.
    destruct (PlotChains.mem p (params c)) eqn:E;
      [apply mem_elem_of in E; contradiction | reflexivity].
Qed.

End Estimator.

(** A core with two physical parameters and the four bookkeeping columns. *)
Definition demo_core : core :=
  {| params := ["J1713_efac"; "gw_log10_A"; "lnpost"; "lnlike";
                "chain_accept"; "pt_chain_accept"]%string;
     samples := fun p => if String.eqb p "J1713_efac" then [1; 2; 3; 4]
                         else [1 # 2; 1 # 3] |}.

Example compute_neff_demo :
  map_to_list (compute_neff (fun chain => Finite 2) demo_core) ≡ₚ
    [("J1713_efac"%string, Finite (4 / 2));
     ("gw_log10_A"%string, Finite (2 / 2))].
Proof.
  unfold compute_neff, demo_core. cbn [fold_left params samples].
  cbn [PlotChains.mem bookkeeping existsb String.eqb Ascii.eqb Bool.eqb orb].
  rewrite map_to_list_insert.
  - rewrite map_to_list_insert by apply lookup_empty.
    rewrite map_to_list_empty. apply Permutation_swap.
  - now rewrite lookup_insert_ne.
Qed.

End ComputeNeff.

(** ** [grubin]: behaviour at the edges of its domain *)

Module GrubinEdges.

Import Grubin.

Local Open Scope Q_scope.

Lemma split_negative (a : ndarray) (M : Z) :
  (M < 0)%Z -> split a M = Raise ValueError.
Proof.
  intros HM. unfold split.
  destruct (M =? 0)%Z eqn:E0; [apply Z.eqb_eq in E0; lia|].
  destruct (negb (Z.of_nat (nrows a) mod M =? 0)%Z); [reflexivity|].
  destruct (M <? 0)%Z eqn:E1; [reflexivity | apply Z.ltb_ge in E1; lia].
Qed.

Lemma split_zero (a : ndarray) : split a 0 = Raise ZeroDivisionError.
Proof. reflexivity. Qed.

(** A split count below 1 never yields a statistic: on a chain that has a
    column, [M = 0] ends in the [ZeroDivisionError] of line 392 (raised
    inside the [except] block), and a negative [M] ends in the [ValueError]
    of the second [np.split] (line 397). *)
Theorem grubin_nonpositive_split_count
    (data : ndarray) (M : Z) (threshold : Q) :
  ncols data <> O -> (M <= 0)%Z ->
  grubin (Core data) M threshold =
    Raise (if (M =? 0)%Z then ZeroDivisionError else ValueError).
Proof.
  intros Hc HM. unfold grubin, grubin_locals, grubin_split.
  cbn [grubin_data mbind outcome_bind bind]. cbv zeta.
  assert (Ec : (ncols data =? 0)%nat = false) by (now apply Nat.eqb_neq).
  rewrite Ec.
  destruct (M =? 0)%Z eqn:E0.
  - apply Z.eqb_eq in E0. subst M. rewrite split_zero. reflexivity.
  - apply Z.eqb_neq in E0. rewrite !split_negative by lia. reflexivity.
Qed.

Lemma grubin_nonpositive_split_count_witness :
  grubin (Core chain4) 0 (101 # 100) = Raise ZeroDivisionError /\
  grubin (Core chain4) (-2) (101 # 100) = Raise ValueError.
Proof.
  split.
  - apply (grubin_nonpositive_split_count chain4 0 (101 # 100)); closed_arith.
  - apply (grubin_nonpositive_split_count chain4 (-2) (101 # 100));
      closed_arith.
Defined.

Lemma grubin_locals_short (data : ndarray) (M : Z) :
  (2 <= M)%Z -> (Z.of_nat (nrows data) < M)%Z -> ncols data <> O ->
  grubin_locals data M = Raise ZeroDivisionError.
Proof.
  intros HM HR Hc.
  assert (Hmod : (Z.of_nat (nrows data) mod M = Z.of_nat (nrows data))%Z)
    by (apply Z.mod_small; lia).
  unfold grubin_locals. rewrite grubin_split_pos by lia. rewrite Hmod.
  cbn [mbind outcome_bind bind].
  destruct (ncols data =? 0)%nat eqn:Ec; [apply Nat.eqb_eq in Ec; lia|].
  rewrite slice_start_nonneg by lia. rewrite Nat2Z.id, Nat.sub_diag.
  unfold int_truediv. change (Z.of_nat 0) with 0%Z.
  assert (E1 : (M - 1 =? 0)%Z = false) by (apply Z.eqb_neq; lia).
  assert (E3 : (M =? 0)%Z = false) by (apply Z.eqb_neq; lia).
  repeat (cbn [mbind outcome_bind bind]; rewrite ?E1, ?E3).
  reflexivity.
Qed.

(** A chain with fewer rows than blocks: the adjusted burn-in removes every
    row, [N] is 0 and the quotient [(N - 1) / N] of line 412 raises. *)
Theorem grubin_fewer_rows_than_blocks
    (data : ndarray) (M : Z) (threshold : Q) :
  (2 <= M)%Z -> (Z.of_nat (nrows data) < M)%Z -> ncols data <> O ->
  grubin_split data M =
    Ret (Z.of_nat (nrows data), blocks_from data (nrows data) M) /\
  grubin (Core data) M threshold = Raise ZeroDivisionError.
Proof.
  intros HM HR Hc. split.
  - rewrite grubin_split_pos by lia.
    rewrite Z.mod_small by lia. rewrite Nat2Z.id. reflexivity.
  - unfold grubin. cbn [grubin_data mbind outcome_bind bind].
    rewrite grubin_locals_short by assumption. reflexivity.
Qed.

(** One row, three columns. *)
Definition chain_single_row : ndarray :=
  {| nrows := 1; ncols := 3; entry := fun r c => 1 |}.

Lemma grubin_fewer_rows_than_blocks_witness :
  grubin_split chain_single_row 2 =
    Ret (Z.of_nat (nrows chain_single_row),
         blocks_from chain_single_row (nrows chain_single_row) 2) /\
  grubin (Core chain_single_row) 2 (101 # 100) = Raise ZeroDivisionError.
Proof.
  apply (grubin_fewer_rows_than_blocks chain_single_row 2 (101 # 100));
    closed_arith.
Defined.

(** *** The returned indices *)

(** [r > t] read in the real numbers: [nan > t] is false, [inf > t] is
    true. *)
Definition root_exceeds (r : nproot) (t : Q) : Prop :=
  match r with
  | SqrtOf x => (Q2R t < R_sqrt.sqrt (Q2R x))%R
  | RootInf => True
  | RootNaN => False
  end.

Lemma Qltb_lt (x y : Q) : Qltb x y = true <-> x < y.
Proof.
  unfold Qltb. rewrite negb_true_iff. split.
  - intros H. apply Qnot_le_lt. intros Hle.
    apply Qle_bool_iff in Hle. congruence.
  - intros H. destruct (Qle_bool y x) eqn:E; [|reflexivity].
    apply Qle_bool_iff in E. exfalso. exact (Qlt_not_le _ _ H E).
Qed.

Lemma sqrt_radicand_nonneg (v : npq) (x : Q) :
  Np.sqrt v = SqrtOf x -> 0 <= x.
Proof.
  destruct v as [y| | |]; cbn [Np.sqrt]; try discriminate.
  destruct (Qltb y 0) eqn:E; [discriminate|].
  intros H. injection H as <-.
  apply Qnot_lt_le. intros Hlt. apply Qltb_lt in Hlt. congruence.
Qed.

Lemma root_gt_exceeds (x t : Q) :
  0 <= x -> (root_gt (SqrtOf x) t = true <-> root_exceeds (SqrtOf x) t).
Proof.
  intros Hx. cbn [root_gt root_exceeds].
  assert (HxR : (0 <= Q2R x)%R)
    by (replace 0%R with (Q2R 0) by lra; apply Qle_Rle; exact Hx).
  pose proof (sqrt_pos (Q2R x)) as Hs.
  pose proof (sqrt_sqrt (Q2R x) HxR) as Hss.
  rewrite orb_true_iff, !Qltb_lt. split.
  - intros [Hneg|Hsq].
    + apply Qlt_Rlt in Hneg. replace (Q2R 0) with 0%R in Hneg by lra. lra.
    + apply Qlt_Rlt in Hsq. rewrite Q2R_mult in Hsq.
      destruct (Rlt_le_dec (Q2R t) 0) as [Ht|Ht]; [lra|].
      destruct (Rlt_le_dec (Q2R t) (R_sqrt.sqrt (Q2R x))) as [H|H];
        [exact H|].
      exfalso. nra.
  - intros H. destruct (Qlt_le_dec t 0) as [Ht|Ht]; [left; exact Ht|].
    right. apply Rlt_Qlt. rewrite Q2R_mult.
    assert (0 <= Q2R t)%R
      by (replace 0%R with (Q2R 0) by lra; apply Qle_Rle; exact Ht).
    nra.
Qed.

Lemma seq_sorted (a n : nat) : StronglySorted lt (seq a n).
Proof.
  revert a. induction n as [|n IH]; intros a; cbn [seq]; constructor.
  - apply IH.
  - apply List.Forall_forall. intros x Hx. apply in_seq in Hx. lia.
Qed.

Lemma filter_sorted (f : nat -> bool) (l : list nat) :
  StronglySorted lt l -> StronglySorted lt (List.filter f l).
Proof.
  induction 1 as [|x l Hs IH Hall]; cbn [List.filter]; [constructor|].
  destruct (f x); [|exact IH]. constructor; [exact IH|].
  apply List.Forall_forall. intros y Hy. apply filter_In in Hy.
  rewrite List.Forall_forall in Hall. apply Hall, Hy.
Qed.

Lemma grubin_locals_no_column (data : ndarray) (M : Z) (l : locals) :
  ncols data = O -> grubin_locals data M <> Ret l.
Proof.
  intros Hc. unfold grubin_locals.
  destruct (grubin_split data M) as [[b ds]|e];
    cbn [mbind outcome_bind bind]; [|discriminate].
  rewrite Hc. cbn [Nat.eqb mbind outcome_bind bind]. discriminate.
Qed.

Lemma grubin_locals_nonpositive (data : ndarray) (M : Z) (l : locals) :
  (M <= 0)%Z -> grubin_locals data M <> Ret l.
Proof.
  intros HM. unfold grubin_locals, grubin_split. cbv zeta.
  destruct (ncols data =? 0)%nat; destruct (M =? 0)%Z eqn:E0;
    try (apply Z.eqb_eq in E0; subst M; rewrite split_zero; discriminate);
    apply Z.eqb_neq in E0; rewrite !split_negative by lia; discriminate.
Qed.

(** What a successful call tells about its arguments. *)
Lemma grubin_locals_returns (data : ndarray) (M : Z) (l : locals) :
  grubin_locals data M = Ret l ->
  (2 <= M)%Z /\ (M <= Z.of_nat (nrows data))%Z /\ ncols data <> O.
Proof.
  intros Hl.
  assert (Hc : ncols data <> O)
    by (intros Hc; exact (grubin_locals_no_column data M l Hc Hl)).
  assert (HM : (0 < M)%Z).
  { destruct (Z_lt_le_dec 0 M) as [H|H]; [exact H|].
    exfalso. exact (grubin_locals_nonpositive data M l H Hl). }
  assert (HM2 : (2 <= M)%Z).
  { destruct (Z.eq_dec M 1%Z) as [->|Hne]; [|lia].
    rewrite grubin_locals_one in Hl by exact Hc. discriminate. }
  split; [exact HM2|]. split; [|exact Hc].
  destruct (Z_lt_le_dec (Z.of_nat (nrows data)) M) as [H|H]; [|exact H].
  rewrite grubin_locals_short in Hl by assumption. discriminate.
Qed.

Lemma root_gt_iff (r : nproot) (t : Q) :
  (forall x, r = SqrtOf x -> 0 <= x) ->
  (root_gt r t = true <-> root_exceeds r t).
Proof.
  intros Hr. destruct r as [x| |].
  - apply root_gt_exceeds. apply Hr. reflexivity.
  - cbn. tauto.
  - cbn. split; [discriminate | tauto].
Qed.

(** The locals of a successful call, whatever the arguments were. *)
Lemma grubin_locals_facts (data : ndarray) (M : Z) (l : locals) :
  grubin_locals data M = Ret l ->
  (2 <= M)%Z /\ (M <= Z.of_nat (nrows data))%Z /\
  (M <= N l)%Z /\
  n_params l = (ncols data - 2)%nat /\
  (forall p, B l p =
     inject_Z (N l) / inject_Z (M - 1) *
     sum_upto (Z.to_nat M)
       (fun m => sq (theta_bar_dotm l m p - theta_bar_dotdot l p))) /\
  (forall m p, sm_sq l m p =
     inject_Z 1 / inject_Z (N l - 1) *
     sum_upto (block_len l)
       (fun n => sq (stacked (blocks l) m n p - theta_bar_dotm l m p))) /\
  (forall p, W l p =
     inject_Z 1 / inject_Z M * sum_upto (Z.to_nat M) (fun m => sm_sq l m p)) /\
  (forall p, var_post l p =
     inject_Z (N l - 1) / inject_Z (N l) * W l p +
     inject_Z 1 / inject_Z (N l) * B l p) /\
  Rhat l = map (fun p => Np.sqrt (true_divide (var_post l p) (W l p)))
               (seq 0 (n_params l)).
Proof.
  intros Hl. destruct (grubin_locals_returns data M l Hl) as (HM & HR & Hc).
  destruct (grubin_locals_ok data M HM Hc HR)
    as [l' (Hl' & Hburn & HN & Hblocks & Hlen & HP & Htm & Htd & HB & Hsm
            & HW & Hvp & HRh)].
  rewrite Hl in Hl'. injection Hl' as <-.
  split; [exact HM|]. split; [exact HR|]. split.
  { rewrite HN, Z.mod_eq by lia.
    assert (1 <= Z.of_nat (nrows data) / M)%Z
      by (apply Z.div_le_lower_bound; lia).
    nia. }
  repeat split; assumption.
Qed.

(** *** Which parameters are reported *)

(** Whenever [grubin] returns on a single chain, the split count was at
    least 2 and at most the number of rows, there is one Rhat per column
    except the last two, and [idx] lists, in increasing order and without
    repetition, exactly the positions whose Rhat exceeds the threshold; a
    [nan] is never listed. *)
Theorem grubin_flags_above_threshold
    (data : ndarray) (M : Z) (t : Q) (rhat : list nproot) (idx : list nat) :
  grubin (Core data) M t = Ret (rhat, idx) ->
  (2 <= M <= Z.of_nat (nrows data))%Z /\
  length rhat = (ncols data - 2)%nat /\
  (forall i, In i idx <->
     exists r, nth_error rhat i = Some r /\ root_exceeds r t) /\
  (forall i, nth_error rhat i = Some RootNaN -> ~ In i idx) /\
  StronglySorted lt idx.
Proof.
  unfold grubin. cbn [grubin_data mbind outcome_bind bind].
  destruct (grubin_locals data M) as [l|e] eqn:Hl;
    cbn [mbind outcome_bind bind]; [|discriminate].
  intros H. injection H as Hrhat Hidx.
  destruct (grubin_locals_facts data M l Hl)
    as (HM & HR & _ & HP & _ & _ & _ & _ & HRh).
  assert (Hnonneg : forall i r x,
            nth_error rhat i = Some r -> r = SqrtOf x -> 0 <= x).
  { intros i r x Hi ->. rewrite <- Hrhat, HRh in Hi.
    rewrite nth_error_map, nth_error_seq in Hi.
    destruct (i <? n_params l)%nat; [|discriminate].
    cbn [option_map] in Hi. injection Hi as Hi.
    exact (sqrt_radicand_nonneg _ _ Hi). }
  assert (Hin : forall i, In i idx <->
            exists r, nth_error rhat i = Some r /\ root_exceeds r t).
  { intros i. rewrite <- Hidx. unfold where_gt. rewrite filter_In, in_seq.
    rewrite Hrhat. split.
    - intros [_ Hf]. destruct (nth_error rhat i) as [r|] eqn:Hi;
        [|discriminate].
      exists r. split; [reflexivity|].
      apply root_gt_iff; [|exact Hf].
      intros x Hx. exact (Hnonneg i r x Hi Hx).
    - intros [r [Hi Hex]]. split.
      + assert (i < length rhat)%nat
          by (apply nth_error_Some; congruence).
        lia.
      + rewrite Hi. apply root_gt_iff; [|exact Hex].
        intros x Hx. exact (Hnonneg i r x Hi Hx). }
  split; [lia|]. split.
  { rewrite <- Hrhat, HRh, length_map, length_seq. exact HP. }
  split; [exact Hin|]. split.
  { intros i Hi Hidx'. apply Hin in Hidx'.
    destruct Hidx' as [r [Hr Hex]]. rewrite Hi in Hr. injection Hr as <-.
    exact Hex. }
  rewrite <- Hidx. unfold where_gt. apply filter_sorted, seq_sorted.
Qed.

Lemma grubin_flags_above_threshold_witness :
  exists rhat idx,
    grubin (Core chain4) 2 (101 # 100) = Ret (rhat, idx) /\
    (2 <= 2 <= Z.of_nat (nrows chain4))%Z /\
    length rhat = (ncols chain4 - 2)%nat /\
    (forall i, In i idx <->
       exists r, nth_error rhat i = Some r /\ root_exceeds r (101 # 100)) /\
    (forall i, nth_error rhat i = Some RootNaN -> ~ In i idx) /\
    StronglySorted lt idx.
Proof.
  eexists _, _. split; [vm_compute; reflexivity|].
  apply (grubin_flags_above_threshold chain4 2 (101 # 100)).
  vm_compute; reflexivity.
Defined.

(** *** The values Rhat can take *)

Lemma Qltb_false (x y : Q) : y <= x -> Qltb x y = false.
Proof.
  intros H. destruct (Qltb x y) eqn:E; [|reflexivity].
  apply Qltb_lt in E. exfalso. exact (Qlt_not_le _ _ E H).
Qed.

Lemma sqrt_divide_nan (vp w : Q) :
  w == 0 -> vp == 0 -> Np.sqrt (true_divide vp w) = RootNaN.
Proof.
  intros Hw Hvp. unfold true_divide.
  apply Qeq_bool_iff in Hw. rewrite Hw.
  rewrite !Qltb_false by lra. reflexivity.
Qed.

Lemma sqrt_divide_inf (vp w : Q) :
  w == 0 -> 0 < vp -> Np.sqrt (true_divide vp w) = RootInf.
Proof.
  intros Hw Hvp. unfold true_divide.
  apply Qeq_bool_iff in Hw. rewrite Hw.
  apply Qltb_lt in Hvp. rewrite Hvp. reflexivity.
Qed.

Lemma sqrt_divide_finite (vp w : Q) :
  0 < w -> 0 <= vp -> Np.sqrt (true_divide vp w) = SqrtOf (vp / w).
Proof.
  intros Hw Hvp. unfold true_divide.
  destruct (Qeq_bool w 0) eqn:E; [apply Qeq_bool_iff in E; lra|].
  cbn [Np.sqrt]. rewrite Qltb_false; [reflexivity|].
  apply Qle_shift_div_l; lra.
Qed.

Lemma inject_Z_pred (n : Z) : inject_Z (n - 1) == inject_Z n - 1.
Proof. unfold Z.sub. rewrite inject_Z_plus. reflexivity. Qed.

Lemma inject_Z_ge_2 (n : Z) : (2 <= n)%Z -> 2 <= inject_Z n.
Proof. intros H. change 2 with (inject_Z 2). now rewrite <- Zle_Qle. Qed.

Lemma Qdiv_pos (a b : Q) : 0 < a -> 0 < b -> 0 < a / b.
Proof. intros Ha Hb. apply Qlt_shift_div_l; lra. Qed.

(** Signs of the two variances and of the weights of line 412. *)
Lemma grubin_variances_nonneg (data : ndarray) (M : Z) (l : locals) (p : nat) :
  grubin_locals data M = Ret l ->
  0 <= B l p /\ 0 <= W l p /\
  0 < inject_Z (N l - 1) / inject_Z (N l) /\
  0 < inject_Z 1 / inject_Z (N l).
Proof.
  intros Hl.
  destruct (grubin_locals_facts data M l Hl)
    as (HM & HR & HNM & HP & HB & Hsm & HW & Hvp & HRh).
  pose proof (inject_Z_ge_2 M HM) as HMq.
  pose proof (inject_Z_ge_2 (N l) ltac:(lia)) as HNq.
  pose proof (inject_Z_pred M) as HM1.
  pose proof (inject_Z_pred (N l)) as HN1.
  change (inject_Z 1) with 1 in *.
  assert (Hsm0 : forall m, 0 <= sm_sq l m p).
  { intros m. rewrite Hsm. apply Qmult_le_0_compat.
    - apply Qlt_le_weak, Qdiv_pos; lra.
    - apply sum_upto_nonneg. intros; apply sq_nonneg. }
  split; [|split; [|split]].
  - rewrite HB. apply Qmult_le_0_compat.
    + apply Qlt_le_weak, Qdiv_pos; lra.
    + apply sum_upto_nonneg. intros; apply sq_nonneg.
  - rewrite HW. apply Qmult_le_0_compat.
    + apply Qlt_le_weak, Qdiv_pos; lra.
    + apply sum_upto_nonneg. intros; apply Hsm0.
  - apply Qdiv_pos; lra.
  - apply Qdiv_pos; lra.
Qed.

Lemma grubin_rhat_entry (data : ndarray) (M : Z) (l : locals) (p : nat) :
  grubin_locals data M = Ret l -> (p < ncols data - 2)%nat ->
  nth_error (Rhat l) p =
    Some (Np.sqrt (true_divide (var_post l p) (W l p))).
Proof.
  intros Hl Hp.
  destruct (grubin_locals_facts data M l Hl)
    as (_ & _ & _ & HP & _ & _ & _ & _ & HRh).
  rewrite HRh, HP, nth_error_map, nth_error_seq.
  destruct (p <? ncols data - 2)%nat eqn:E; [reflexivity|].
  apply Nat.ltb_ge in E. lia.
Qed.

(** For every retained column the between-block variance B and the
    within-block variance W are non-negative, and Rhat is one of three
    things: a finite root that is at least sqrt((N-1)/N) when W > 0, [inf]
    when W = 0 < B, and [nan] when W = B = 0. *)
Theorem grubin_rhat_cases (data : ndarray) (M : Z) (p : nat) :
  (2 <= M)%Z -> (M <= Z.of_nat (nrows data))%Z ->
  (p < ncols data - 2)%nat ->
  exists l, grubin_locals data M = Ret l /\
    0 <= B l p /\ 0 <= W l p /\
    ((0 < W l p /\
      exists r, nth_error (Rhat l) p = Some (SqrtOf r) /\
        r == var_post l p / W l p /\
        inject_Z (N l - 1) / inject_Z (N l) <= r) \/
     (W l p == 0 /\ 0 < B l p /\ nth_error (Rhat l) p = Some RootInf) \/
     (W l p == 0 /\ B l p == 0 /\ nth_error (Rhat l) p = Some RootNaN)).
Proof.
  intros HM HR Hp.
  destruct (grubin_locals_ok data M HM ltac:(lia) HR) as [l [Hl _]].
  exists l. split; [exact Hl|].
  destruct (grubin_variances_nonneg data M l p Hl) as (HB0 & HW0 & Hc1 & Hc2).
  destruct (grubin_locals_facts data M l Hl)
    as (_ & _ & _ & _ & _ & _ & _ & Hvp & _).
  split; [exact HB0|]. split; [exact HW0|].
  rewrite (grubin_rhat_entry data M l p Hl Hp).
  specialize (Hvp p).
  set (c1 := inject_Z (N l - 1) / inject_Z (N l)) in *.
  set (c2 := inject_Z 1 / inject_Z (N l)) in *.
  assert (Hc2B : 0 <= c2 * B l p)
    by (apply Qmult_le_0_compat; [apply Qlt_le_weak; exact Hc2 | exact HB0]).
  assert (Hc1W : 0 <= c1 * W l p)
    by (apply Qmult_le_0_compat; [apply Qlt_le_weak; exact Hc1 | exact HW0]).
  destruct (Qlt_le_dec 0 (W l p)) as [HW|HW].
  - left. split; [exact HW|]. exists (var_post l p / W l p).
    split; [|split; [reflexivity|]].
    + rewrite sqrt_divide_finite; [reflexivity | exact HW | rewrite Hvp; lra].
    + apply Qle_shift_div_l; [exact HW | rewrite Hvp; lra].
  - right. assert (HWz : W l p == 0) by lra.
    assert (Hvpz : var_post l p == c2 * B l p)
      by (rewrite Hvp, HWz; ring).
    destruct (Qlt_le_dec 0 (B l p)) as [HB|HB].
    + left. split; [exact HWz|]. split; [exact HB|].
      rewrite sqrt_divide_inf; [reflexivity | exact HWz |].
      rewrite Hvpz. apply Qmult_lt_0_compat; assumption.
    + right. assert (HBz : B l p == 0) by lra.
      split; [exact HWz|]. split; [exact HBz|].
      rewrite sqrt_divide_nan; [reflexivity | exact HWz |].
      rewrite Hvpz, HBz. ring.
Qed.

Lemma grubin_rhat_cases_witness :
  exists l, grubin_locals chain4 2 = Ret l /\
    0 <= B l 0 /\ 0 <= W l 0 /\
    ((0 < W l 0 /\
      exists r, nth_error (Rhat l) 0 = Some (SqrtOf r) /\
        r == var_post l 0 / W l 0 /\
        inject_Z (N l - 1) / inject_Z (N l) <= r) \/
     (W l 0 == 0 /\ 0 < B l 0 /\ nth_error (Rhat l) 0 = Some RootInf) \/
     (W l 0 == 0 /\ B l 0 == 0 /\ nth_error (Rhat l) 0 = Some RootNaN)).
Proof. apply (grubin_rhat_cases chain4 2 0); closed_arith. Defined.

(** *** A parameter that never moves *)




(** *** Affine changes of a parameter *)

Lemma qnat_succ (n : nat) : qnat (S n) == qnat n + 1.
Proof.
  unfold qnat. rewrite Nat2Z.inj_succ. unfold Z.succ.
  rewrite inject_Z_plus. reflexivity.
Qed.

Lemma sum_upto_affine (n : nat) (a b : Q) (f : nat -> Q) :
  sum_upto n (fun i => a * f i + b) == a * sum_upto n f + qnat n * b.
Proof.
  induction n as [|n IH]; cbn [sum_upto].
  - unfold qnat. cbn. ring.
  - rewrite IH, qnat_succ. ring.
Qed.

Lemma sum_upto_scale (n : nat) (a : Q) (f : nat -> Q) :
  sum_upto n (fun i => a * f i) == a * sum_upto n f.
Proof.
  induction n as [|n IH]; cbn [sum_upto]; [ring|]. rewrite IH. ring.
Qed.

Lemma mean_upto_ext (n : nat) (f g : nat -> Q) :
  (forall i, (i < n)%nat -> f i == g i) -> mean_upto n f == mean_upto n g.
Proof.
  intros H. unfold mean_upto. now rewrite (sum_upto_ext n f g H).
Qed.

Lemma mean_upto_affine (n : nat) (a b : Q) (f : nat -> Q) :
  (0 < n)%nat ->
  mean_upto n (fun i => a * f i + b) == a * mean_upto n f + b.
Proof.
  intros Hn. unfold mean_upto. rewrite sum_upto_affine.
  pose proof (qnat_pos n Hn). field. lra.
Qed.

(** Replacing a retained column x by a*x + b multiplies B, W and var_post
    of that column by a^2; where W > 0 and a <> 0 the radicand of Rhat, the
    quotient var_post / W, is unchanged. *)
Theorem grubin_affine_invariant
    (data data' : ndarray) (M : Z) (p : nat) (a b : Q) :
  (2 <= M)%Z -> (M <= Z.of_nat (nrows data))%Z ->
  (p < ncols data - 2)%nat ->
  nrows data' = nrows data -> ncols data' = ncols data ->
  (forall r, (r < nrows data)%nat ->
     entry data' r p == a * entry data r p + b) ->
  exists l l',
    grubin_locals data M = Ret l /\ grubin_locals data' M = Ret l' /\
    B l' p == a * a * B l p /\
    W l' p == a * a * W l p /\
    var_post l' p == a * a * var_post l p /\
    (0 < W l p -> ~ a == 0 ->
     exists r r', nth_error (Rhat l) p = Some (SqrtOf r) /\
                  nth_error (Rhat l') p = Some (SqrtOf r') /\ r' == r).
Proof.
  intros HM HR Hp Hrows Hcols Hent.
  destruct (grubin_locals_ok data M HM ltac:(lia) HR)
    as [l (Hl & Hburn & HN & Hblocks & Hlen & HP & Htm & Htd & HB & Hsm
           & HW & Hvp & HRh)].
  destruct (grubin_locals_ok data' M HM ltac:(lia) ltac:(lia))
    as [l' (Hl' & Hburn' & HN' & Hblocks' & Hlen' & HP' & Htm' & Htd' & HB'
            & Hsm' & HW' & Hvp' & HRh')].
  rewrite Hrows in Hburn', HN', Hlen'.
  assert (Ebn : burn l' = burn l) by congruence.
  assert (EN : N l' = N l) by congruence.
  rewrite Ebn in Hlen', Hblocks'.
  assert (Elen : block_len l' = block_len l) by congruence.
  pose proof (mod_bounds (nrows data) M ltac:(lia)) as Hb.
  set (k := Z.to_nat (burn l)) in *.
  assert (Hk : (k <= nrows data)%nat) by (subst k; rewrite Hburn; lia).
  assert (HNM : (Z.to_nat M <= nrows data - k)%nat).
  { destruct (grubin_locals_facts data M l Hl) as (_ & _ & HNM & _).
    rewrite HN in HNM. subst k. rewrite Hburn. lia. }
  assert (HMn : (2 <= Z.to_nat M)%nat) by lia.
  assert (Hlen1 : (1 <= block_len l)%nat).
  { rewrite Hlen. apply Nat.div_le_lower_bound; lia. }
  assert (Hfit : (Z.to_nat M * block_len l <= nrows data - k)%nat).
  { rewrite Hlen. apply Nat.Div0.mul_div_le. }
  assert (Hx : forall m n, (m < Z.to_nat M)%nat -> (n < block_len l)%nat ->
             stacked (blocks l') m n p ==
             a * stacked (blocks l) m n p + b).
  { intros m n Hm Hn.
    rewrite Hblocks, Hblocks', !stacked_blocks_from by exact Hm.
    rewrite Hrows. fold k. rewrite <- Hlen. apply Hent. nia. }
  assert (Hmu : forall m, (m < Z.to_nat M)%nat ->
              theta_bar_dotm l' m p == a * theta_bar_dotm l m p + b).
  { intros m Hm. rewrite Htm, Htm', Elen.
    rewrite <- mean_upto_affine by lia.
    apply mean_upto_ext. intros i Hi. apply Hx; assumption. }
  assert (Hgrand : theta_bar_dotdot l' p == a * theta_bar_dotdot l p + b).
  { rewrite Htd, Htd'. rewrite <- mean_upto_affine by lia.
    apply mean_upto_ext. exact Hmu. }
  assert (HBa : B l' p == a * a * B l p).
  { rewrite HB, HB', EN.
    rewrite (sum_upto_ext _ _
               (fun m => a * a *
                  sq (theta_bar_dotm l m p - theta_bar_dotdot l p))).
    - rewrite sum_upto_scale. ring.
    - intros m Hm. unfold sq. rewrite (Hmu m Hm), Hgrand. ring. }
  assert (Hs : forall m, (m < Z.to_nat M)%nat ->
             sm_sq l' m p == a * a * sm_sq l m p).
  { intros m Hm. rewrite Hsm, Hsm', EN, Elen.
    rewrite (sum_upto_ext _ _
               (fun n => a * a *
                  sq (stacked (blocks l) m n p - theta_bar_dotm l m p))).
    - rewrite sum_upto_scale. ring.
    - intros i Hi. unfold sq. rewrite (Hx m i Hm Hi), (Hmu m Hm). ring. }
  assert (HWa : W l' p == a * a * W l p).
  { rewrite HW, HW'.
    rewrite (sum_upto_ext _ _ (fun m => a * a * sm_sq l m p)) by exact Hs.
    rewrite sum_upto_scale. ring. }
  assert (Hvpa : var_post l' p == a * a * var_post l p).
  { rewrite Hvp, Hvp', EN, HWa, HBa. ring. }
  exists l, l'. repeat (split; [assumption|]).
  intros HWpos Ha.
  destruct (grubin_variances_nonneg data M l p Hl) as (HB0 & _ & Hc1 & Hc2).
  assert (Haa : 0 < a * a) by (apply (sq_pos a Ha)).
  assert (Hvp0 : 0 <= var_post l p).
  { rewrite Hvp.
    assert (0 <= inject_Z (N l - 1) / inject_Z (N l) * W l p)
      by (apply Qmult_le_0_compat; lra).
    assert (0 <= inject_Z 1 / inject_Z (N l) * B l p)
      by (apply Qmult_le_0_compat; lra).
    lra. }
  assert (HWpos' : 0 < W l' p)
    by (rewrite HWa; apply Qmult_lt_0_compat; assumption).
  assert (Hvp0' : 0 <= var_post l' p)
    by (rewrite Hvpa; apply Qmult_le_0_compat; lra).
  exists (var_post l p / W l p), (var_post l' p / W l' p).
  split; [|split].
  - rewrite (grubin_rhat_entry data M l p Hl Hp).
    now rewrite sqrt_divide_finite.
  - rewrite (grubin_rhat_entry data' M l' p Hl' ltac:(lia)).
    now rewrite sqrt_divide_finite.
  - rewrite Hvpa, HWa. field. split; lra.
Qed.

(** [chain4] with its retained column x replaced by 2x + 1. *)
Definition chain4_affine : ndarray :=
  {| nrows := 4; ncols := 3;
     entry := fun r c => match c with
                         | O => nth r [1; 5; 9; 21] 0
                         | _ => 0
                         end |}.

Lemma chain4_affine_entries (r : nat) :
  (r < nrows chain4)%nat ->
  entry chain4_affine r 0 == 2 * entry chain4 r 0 + 1.
Proof.
  intros Hr. do 4 (destruct r as [|r]; [reflexivity|]).
  cbn in Hr. lia.
Qed.

Lemma grubin_affine_invariant_witness :
  exists l l',
    grubin_locals chain4 2 = Ret l /\ grubin_locals chain4_affine 2 = Ret l' /\
    B l' 0 == 2 * 2 * B l 0 /\
    W l' 0 == 2 * 2 * W l 0 /\
    var_post l' 0 == 2 * 2 * var_post l 0 /\
    (0 < W l 0 -> ~ 2 == 0 ->
     exists r r', nth_error (Rhat l) 0 = Some (SqrtOf r) /\
                  nth_error (Rhat l') 0 = Some (SqrtOf r') /\ r' == r).
Proof.
  apply (grubin_affine_invariant chain4 chain4_affine 2 0 2 1);
    [lia | closed_arith | closed_arith | reflexivity | reflexivity
    | exact chain4_affine_entries].
Defined.

(** *** Two chains compared *)

(** Given a list of two cores of [L] rows each with the same number of
    columns, and M = 2, no row is discarded and the two blocks that are
    compared are the two chains themselves, without their last two
    columns. *)
Theorem grubin_two_chains (c0 c1 : ndarray) (L : nat) :
  (1 <= L)%nat -> nrows c0 = L -> nrows c1 = L ->
  ncols c0 = ncols c1 -> ncols c0 <> O ->
  exists data l,
    grubin_data (CoreList [c0; c1]) = Ret data /\
    grubin_locals data 2 = Ret l /\
    burn l = 0%Z /\ block_len l = L /\ N l = (2 * Z.of_nat L)%Z /\
    n_params l = (ncols c0 - 2)%nat /\
    (forall n p, (n < L)%nat ->
       stacked (blocks l) 0 n p = entry c0 n p /\
       stacked (blocks l) 1 n p = entry c1 n p).
Proof.
  intros HL H0 H1 Hc Hc0. cbn [grubin_data]. unfold concatenate.
  rewrite <- Hc, Nat.eqb_refl. eexists. 
  set (data := {| nrows := (nrows c0 + nrows c1)%nat; ncols := ncols c0;
                  entry := _ |}).
  assert (Hrows : nrows data = (2 * L)%nat) by (cbn; lia).
  assert (Hmod : (Z.of_nat (nrows data) mod 2 = 0)%Z).
  { rewrite Hrows, Nat2Z.inj_mul, Z.mul_comm. apply Z.mod_mul. lia. }
  destruct (grubin_locals_ok data 2 ltac:(lia) Hc0 ltac:(lia))
    as [l (Hl & Hburn & HN & Hblocks & Hlen & HP & _)].
  rewrite Hmod in Hburn. rewrite Hmod, Z.sub_0_r, Hrows in HN.
  rewrite Hburn in Hblocks, Hlen. change (Z.to_nat 0) with O in Hblocks, Hlen.
  rewrite Nat.sub_0_r, Hrows in Hlen. change (Z.to_nat 2) with 2%nat in Hlen.
  rewrite Nat.mul_comm, Nat.div_mul in Hlen by lia.
  exists l. split; [reflexivity|]. split; [exact Hl|].
  split; [exact Hburn|]. split; [exact Hlen|].
  split; [rewrite HN; lia|]. split; [exact HP|].
  intros n p Hn. rewrite Hblocks.
  rewrite !stacked_blocks_from by (cbn; lia).
  rewrite Nat.sub_0_r, Hrows. change (Z.to_nat 2) with 2%nat.
  rewrite (Nat.mul_comm 2 L), Nat.div_mul by lia.
  cbn [Nat.add Nat.mul entry data]. rewrite H0.
  split.
  - destruct (n <? L)%nat eqn:E; [reflexivity | apply Nat.ltb_ge in E; lia].
  - rewrite Nat.add_0_r.
    destruct (L + n <? L)%nat eqn:E; [apply Nat.ltb_lt in E; lia|].
    f_equal. lia.
Qed.

Lemma grubin_two_chains_witness :
  exists data l,
    grubin_data (CoreList [chain_single_row; chain_single_row]) = Ret data /\
    grubin_locals data 2 = Ret l /\
    burn l = 0%Z /\ block_len l = 1%nat /\ N l = (2 * Z.of_nat 1)%Z /\
    n_params l = (ncols chain_single_row - 2)%nat /\
    (forall n p, (n < 1)%nat ->
       stacked (blocks l) 0 n p = entry chain_single_row n p /\
       stacked (blocks l) 1 n p = entry chain_single_row n p).
Proof.
  apply (grubin_two_chains chain_single_row chain_single_row 1);
    closed_arith.
Defined.

(** *** The row count in the formulas *)

(** On every chain with at least M >= 2 rows and a column, the N of lines
    406-412 is the number of all retained rows, M times the length of a
    block, and not the length of one block. *)
Theorem grubin_N_is_total_rows (data : ndarray) (M : Z) :
  (2 <= M)%Z -> (M <= Z.of_nat (nrows data))%Z -> ncols data <> O ->
  exists l, grubin_locals data M = Ret l /\
    N l = (M * Z.of_nat (block_len l))%Z /\
    N l = (Z.of_nat (nrows data) - burn l)%Z /\
    (Z.of_nat (block_len l) < N l)%Z.
Proof.
  intros HM HR Hc.
  destruct (grubin_locals_ok data M HM Hc HR)
    as [l (Hl & Hburn & HN & _ & Hlen & _)].
  destruct (grubin_locals_facts data M l Hl) as (_ & _ & HNM & _).
  pose proof (mod_bounds (nrows data) M ltac:(lia)) as Hb.
  exists l. split; [exact Hl|].
  assert (HNl : N l = (M * Z.of_nat (block_len l))%Z).
  { rewrite Hlen, Hburn, Nat2Z.inj_div, Z2Nat.id by lia.
    replace (Z.of_nat (nrows data - Z.to_nat (Z.of_nat (nrows data) mod M)))
      with (Z.of_nat (nrows data) - Z.of_nat (nrows data) mod M)%Z by lia.
    rewrite HN, (Z.mod_eq (Z.of_nat (nrows data)) M) by lia.
    replace (Z.of_nat (nrows data) -
             (Z.of_nat (nrows data) - M * (Z.of_nat (nrows data) / M)))%Z
      with (Z.of_nat (nrows data) / M * M)%Z by lia.
    rewrite Z.div_mul by lia. lia. }
  split; [exact HNl|]. split; [rewrite HN, Hburn; reflexivity|]. nia.
Qed.

Lemma grubin_N_is_total_rows_witness :
  exists l, grubin_locals chain4 2 = Ret l /\
    N l = (2 * Z.of_nat (block_len l))%Z /\
    N l = (Z.of_nat (nrows chain4) - burn l)%Z /\
    (Z.of_nat (block_len l) < N l)%Z.
Proof. apply (grubin_N_is_total_rows chain4 2); closed_arith. Defined.

End GrubinEdges.

(** ** [plot_chains]: the selected parameters, branch by branch *)

Module PlotChainsSelection.

Import PlotChains.

Abbreviation count := (count_occ String.string_dec).

Lemma mem_In (p : string) (l : list string) : mem p l = true <-> In p l.
Proof.
  unfold mem. rewrite existsb_exists. split.
  - intros [x [Hin Heq]]. apply String.eqb_eq in Heq. now subst.
  - intros Hin. exists p. split; [exact Hin | apply String.eqb_refl].
Qed.

(** [params.remove(p)] on a list that holds [p]. *)
Lemma list_remove_in (p : string) (params : list string) :
  In p params ->
  exists r, list_remove p params = Ret r /\
    sublist r params /\
    forall q, count params q =
              (count r q + if String.string_dec p q then 1 else 0)%nat.
Proof.
  induction params as [|x params IH]; intros Hin; [destruct Hin|].
  cbn [list_remove]. destruct (String.eqb x p) eqn:E.
  - apply String.eqb_eq in E. subst x. exists params.
    split; [reflexivity|]. split; [apply sublist_cons, reflexivity|].
    intros q. cbn [count_occ].
    destruct (String.string_dec p q); lia.
  - apply String.eqb_neq in E.
    destruct Hin as [Hin|Hin]; [congruence|].
    destruct (IH Hin) as [r [Hr [Hsub Hcount]]].
    rewrite Hr. cbn [mbind outcome_bind bind]. exists (x :: r).
    split; [reflexivity|]. split; [apply sublist_skip, Hsub|].
    intros q. cbn [count_occ]. rewrite (Hcount q).
    destruct (String.string_dec x q); lia.
Qed.

(** [params.remove(p)] on a list that does not hold [p]. *)
Lemma list_remove_not_in (p : string) (params : list string) :
  ~ In p params -> list_remove p params = Raise ValueError.
Proof.
  induction params as [|x params IH]; intros Hin; [reflexivity|].
  cbn [list_remove]. destruct (String.eqb x p) eqn:E.
  - apply String.eqb_eq in E. subst x. exfalso. apply Hin. now left.
  - rewrite IH; [reflexivity|]. intros H. apply Hin. now right.
Qed.

Lemma remove_all_enough (exclude params : list string) :
  (forall q, (count exclude q <= count params q)%nat) ->
  exists r, remove_all exclude params = Ret r /\
    sublist r params /\
    forall q, count r q = (count params q - count exclude q)%nat.
Proof.
  revert params. induction exclude as [|p rest IH]; intros params Hle.
  - exists params. split; [reflexivity|]. split; [reflexivity|].
    intros q. cbn [count_occ]. lia.
  - assert (Hin : In p params).
    { apply (count_occ_In String.string_dec). specialize (Hle p).
      cbn [count_occ] in Hle.
      destruct (String.string_dec p p); [lia | congruence]. }
    destruct (list_remove_in p params Hin) as [r1 [Hr1 [Hsub1 Hc1]]].
    destruct (IH r1) as [r [Hr [Hsub Hc]]].
    { intros q. specialize (Hle q). specialize (Hc1 q).
      cbn [count_occ] in Hle. destruct (String.string_dec p q); lia. }
    cbn [remove_all]. rewrite Hr1. cbn [mbind outcome_bind bind].
    exists r. split; [exact Hr|]. split; [now transitivity r1|].
    intros q. rewrite (Hc q). specialize (Hc1 q). cbn [count_occ].
    destruct (String.string_dec p q); lia.
Qed.

Lemma sublist_In (r l : list string) (x : string) :
  sublist r l -> In x r -> In x l.
Proof.
  intros Hsub Hin. apply list_elem_of_In.
  eapply elem_of_sublist; [|exact Hsub]. now apply list_elem_of_In.
Qed.

(** A sublist of a duplicate-free list is the filter of that list by
    membership in the sublist. *)
Lemma sublist_filter_mem (r l : list string) :
  sublist r l -> List.NoDup l -> r = List.filter (fun p => mem p r) l.
Proof.
  induction 1 as [|x r l Hsub IH|x r l Hsub IH]; intros Hnd.
  - reflexivity.
  - apply NoDup_cons_iff in Hnd. destruct Hnd as [Hx Hnd].
    cbn [List.filter]. unfold mem at 1. cbn [existsb].
    rewrite String.eqb_refl. cbn [orb]. f_equal.
    rewrite (IH Hnd) at 1. apply filter_ext_in. intros a Ha.
    unfold mem. cbn [existsb].
    destruct (String.eqb a x) eqn:E; [|reflexivity].
    apply String.eqb_eq in E. subst a. contradiction.
  - apply NoDup_cons_iff in Hnd. destruct Hnd as [Hx Hnd].
    cbn [List.filter]. destruct (mem x r) eqn:E.
    + apply mem_In in E. exfalso. apply Hx. exact (sublist_In r l x Hsub E).
    + exact (IH Hnd).
Qed.

(** *** [exclude] with a single core *)

(** [params] without the first [budget q] occurrences of each name [q]:
    reading from the left, an entry is dropped as long as its name still has
    budget. *)
Fixpoint without_first (budget : string -> nat) (params : list string)
  : list string :=
  match params with
  | [] => []
  | x :: rest =>
      match budget x with
      | O => x :: without_first budget rest
      | S _ =>
          without_first
            (fun q => if String.eqb q x then Nat.pred (budget q)
                      else budget q) rest
      end
  end.

Lemma without_first_ext (b b' : string -> nat) (l : list string) :
  (forall q, b q = b' q) -> without_first b l = without_first b' l.
Proof.
  revert b b'. induction l as [|x l IH]; intros b b' H; [reflexivity|].
  cbn [without_first]. rewrite <- (H x). destruct (b x).
  - f_equal. now apply IH.
  - apply IH. intros q. rewrite (H q). reflexivity.
Qed.

Lemma without_first_zero (b : string -> nat) (l : list string) :
  (forall q, b q = O) -> without_first b l = l.
Proof.
  intros H. induction l as [|x l IH]; [reflexivity|].
  cbn [without_first]. rewrite (H x). now rewrite IH.
Qed.

Lemma without_first_twice (b1 b2 : string -> nat) (l : list string) :
  without_first b2 (without_first b1 l)
  = without_first (fun q => (b1 q + b2 q)%nat) l.
Proof.
  revert b1 b2. induction l as [|x l IH]; intros b1 b2; [reflexivity|].
  cbn [without_first]. destruct (b1 x) as [|k] eqn:E1.
  - cbn [without_first Nat.add]. destruct (b2 x) as [|k2] eqn:E2.
    + f_equal. apply IH.
    + rewrite IH. apply without_first_ext. intros q.
      destruct (String.eqb q x) eqn:E; [|reflexivity].
      apply String.eqb_eq in E. subst q. rewrite E1, E2. reflexivity.
  - cbn [Nat.add]. rewrite IH. apply without_first_ext. intros q.
    destruct (String.eqb q x) eqn:E; [|reflexivity].
    apply String.eqb_eq in E. subst q. rewrite E1. reflexivity.
Qed.

(** [params.remove(p)] drops the first [p]. *)
Lemma list_remove_first (p : string) (params : list string) :
  In p params ->
  list_remove p params =
    Ret (without_first (fun q => if String.eqb q p then 1%nat else O) params).
Proof.
  induction params as [|x params IH]; intros Hin; [destruct Hin|].
  cbn [list_remove without_first]. destruct (String.eqb x p) eqn:E.
  - apply String.eqb_eq in E. subst x. f_equal. symmetry.
    apply without_first_zero. intros q.
    destruct (String.eqb q p); reflexivity.
  - destruct Hin as [->|Hin]; [rewrite String.eqb_refl in E; discriminate|].
    rewrite (IH Hin). reflexivity.
Qed.

Lemma remove_all_first (exclude params : list string) :
  (forall q, (count exclude q <= count params q)%nat) ->
  remove_all exclude params = Ret (without_first (count exclude) params).
Proof.
  revert params. induction exclude as [|p rest IH]; intros params Hle.
  - cbn [remove_all]. f_equal. symmetry. now apply without_first_zero.
  - assert (Hin : In p params).
    { apply (count_occ_In String.string_dec). specialize (Hle p).
      cbn [count_occ] in Hle.
      destruct (String.string_dec p p); [lia | congruence]. }
    destruct (list_remove_in p params Hin) as [r1 [Hr1 [_ Hc1]]].
    cbn [remove_all]. rewrite Hr1. cbn [mbind outcome_bind bind].
    rewrite IH.
    2:{ intros q. specialize (Hle q). specialize (Hc1 q).
        cbn [count_occ] in Hle. destruct (String.string_dec p q); lia. }
    rewrite (list_remove_first p params Hin) in Hr1. injection Hr1 as <-.
    rewrite without_first_twice. f_equal. apply without_first_ext.
    intros q. cbn [count_occ].
    destruct (String.eqb q p) eqn:E.
    + apply String.eqb_eq in E. subst q.
      destruct (String.string_dec p p); [lia | congruence].
    + apply String.eqb_neq in E.
      destruct (String.string_dec p q); [congruence | lia].
Qed.

(** With [exclude] alone and a single core, the call goes on whenever no
    name is excluded more often than the core has it.  The selection is
    then the core's parameters in their order, less, for each name, as many
    of its first occurrences as [exclude] lists it; for duplicate-free
    parameters that is the list of the parameters that are not excluded. *)
Theorem plot_chains_exclude_removes (params exclude : list string) :
  (forall q, (count exclude q <= count params q)%nat) ->
  exists r,
    plot_chains_params (Core params) None (Some exclude) = Ret r /\
    r = without_first (count exclude) params /\
    sublist r params /\
    (forall q, count r q = (count params q - count exclude q)%nat) /\
    (List.NoDup params ->
     r = List.filter (fun p => negb (mem p exclude)) params).
Proof.
  intros Hle. destruct (remove_all_enough exclude params Hle)
    as [r [Hr [Hsub Hc]]].
  exists r. split; [exact Hr|]. split.
  { rewrite (remove_all_first exclude params Hle) in Hr. now injection Hr. }
  split; [exact Hsub|]. split; [exact Hc|].
  intros Hnd. rewrite (sublist_filter_mem r params Hsub Hnd) at 1.
  apply filter_ext_in. intros a Ha.
  assert (Ha1 : count params a = 1%nat)
    by (apply NoDup_count_occ'; assumption).
  specialize (Hc a). rewrite Ha1 in Hc.
  destruct (mem a exclude) eqn:E; cbn [negb].
  - apply mem_In in E. apply (count_occ_In String.string_dec) in E.
    destruct (mem a r) eqn:Er; [|reflexivity].
    apply mem_In in Er. apply (count_occ_In String.string_dec) in Er. lia.
  - assert (Hex : ~ In a exclude)
      by (intros Hi; apply mem_In in Hi; congruence).
    apply (count_occ_not_In String.string_dec) in Hex.
    apply mem_In. apply (count_occ_In String.string_dec). lia.
Qed.

Lemma plot_chains_exclude_removes_witness :
  exists r,
    plot_chains_params (Core ["a"; "b"; "a"; "c"]%string) None
                       (Some ["a"; "c"]%string) = Ret r /\
    r = without_first (count ["a"; "c"]%string)
                      ["a"; "b"; "a"; "c"]%string /\
    sublist r ["a"; "b"; "a"; "c"]%string /\
    (forall q, count r q = (count ["a"; "b"; "a"; "c"]%string q -
                            count ["a"; "c"]%string q)%nat) /\
    (List.NoDup ["a"; "b"; "a"; "c"]%string ->
     r = List.filter (fun p => negb (mem p ["a"; "c"]%string))
                     ["a"; "b"; "a"; "c"]%string).
Proof.
  apply (plot_chains_exclude_removes ["a"; "b"; "a"; "c"]%string
                                     ["a"; "c"]%string).
  intros q. cbn [count_occ].
  repeat match goal with
         | |- context [String.string_dec ?x q] =>
             destruct (String.string_dec x q)
         end; try lia; congruence.
Defined.

(** On the parameters a, b, a, c with a and c excluded, what is left is
    b, a: the first a is the one that goes. *)
Example plot_chains_exclude_first_occurrence :
  plot_chains_params (Core ["a"; "b"; "a"; "c"]%string) None
                     (Some ["a"; "c"]%string) = Ret ["b"; "a"]%string /\
  without_first (count ["a"; "c"]%string) ["a"; "b"; "a"; "c"]%string
    = ["b"; "a"]%string.
Proof. split; reflexivity. Qed.

(** Excluding a name more often than the core has it (in particular a name
    the core does not have) makes [params.remove] raise [ValueError]. *)
Theorem plot_chains_exclude_unknown (params exclude : list string) :
  (exists q, (count params q < count exclude q)%nat) ->
  plot_chains_params (Core params) None (Some exclude) = Raise ValueError.
Proof.
  change (plot_chains_params (Core params) None (Some exclude))
    with (remove_all exclude params).
  revert params. induction exclude as [|p rest IH]; intros params [q Hq].
  - cbn [count_occ] in Hq. lia.
  - cbn [remove_all].
    destruct (in_dec String.string_dec p params) as [Hin|Hin].
    + destruct (list_remove_in p params Hin) as [r1 [Hr1 [_ Hc1]]].
      rewrite Hr1. cbn [mbind outcome_bind bind]. apply IH.
      exists q. specialize (Hc1 q). cbn [count_occ] in Hq.
      destruct (String.string_dec p q); lia.
    + rewrite list_remove_not_in by exact Hin. reflexivity.
Qed.

Lemma plot_chains_exclude_unknown_witness :
  plot_chains_params (Core ["a"; "b"]%string) None (Some ["c"]%string)
    = Raise ValueError.
Proof.
  apply (plot_chains_exclude_unknown ["a"; "b"]%string ["c"]%string).
  exists "c"%string. vm_compute. lia.
Defined.

(** *** [exclude] with a list of cores *)

Lemma intersection_from_empty (cores : list (list string)) :
  fold_left (fun (s : gset string) c => s ∩ list_to_set c) cores
            (∅ : gset string) = ∅.
Proof.
  induction cores as [|c cores IH]; cbn [fold_left]; [reflexivity|].
  assert (E : (∅ : gset string) ∩ list_to_set c = ∅).
  { apply set_eq. intros x. rewrite elem_of_intersection. split.
    - intros [H _]. exact H.
    - intros H. apply elem_of_empty in H. destruct H. }
  rewrite E. exact IH.
Qed.

Lemma plot_chains_exclude_core_list_eq
    (cores : list (list string)) (exclude : list string) :
  plot_chains_params (CoreList cores) None (Some exclude) =
    match exclude with
    | [] => Ret []
    | _ :: _ => Raise ValueError
    end.
Proof.
  unfold plot_chains_params.
  cbn [is_given andb negb]. rewrite intersection_from_empty.
  rewrite elements_empty. destruct exclude; reflexivity.
Qed.

(** *** Neither [pars] nor [exclude], a list of cores *)

Lemma filter_fold (rest : list (list string)) (c0 : list string) :
  fold_left (fun params c => List.filter (fun p => mem p c) params) rest c0
  = List.filter (fun p => forallb (mem p) rest) c0.
Proof.
  revert c0. induction rest as [|c rest IH]; intros c0; cbn [fold_left].
  - cbn [forallb]. induction c0 as [|x c0 IHc]; [reflexivity|].
    cbn [List.filter]. now rewrite <- IHc.
  - rewrite IH. cbn [forallb].
    induction c0 as [|x c0 IHc]; [reflexivity|].
    cbn [List.filter]. destruct (mem x c); cbn [andb List.filter].
    + destruct (forallb (mem x) rest); now rewrite IHc.
    + exact IHc.
Qed.

(** With neither [pars] nor [exclude] and a non-empty list of cores, the
    selection is the parameters of the first core that every other core
    has too, in the order of the first core; an empty list of cores raises
    [IndexError]. *)
Theorem plot_chains_common_params
    (c0 : list string) (rest : list (list string)) :
  plot_chains_params (CoreList []) None None = Raise IndexError /\
  exists r,
    plot_chains_params (CoreList (c0 :: rest)) None None = Ret r /\
    r = List.filter (fun p => forallb (mem p) rest) c0 /\
    sublist r c0 /\
    forall p, In p r <-> In p c0 /\ forall c, In c rest -> In p c.
Proof.
  split; [reflexivity|].
  exists (List.filter (fun p => forallb (mem p) rest) c0).
  split; [cbn; now rewrite filter_fold|]. split; [reflexivity|]. split.
  - induction c0 as [|x c0 IH]; cbn [List.filter]; [constructor|].
    destruct (forallb (mem x) rest);
      [apply sublist_skip | apply sublist_cons]; exact IH.
  - intros p. rewrite filter_In, forallb_forall. split.
    + intros [Hp Hall]. split; [exact Hp|].
      intros c Hc. apply mem_In. exact (Hall c Hc).
    + intros [Hp Hall]. split; [exact Hp|].
      intros c Hc. apply mem_In. exact (Hall c Hc).
Qed.

(** *** [pars] given *)

(** An explicit [pars] is the selection, whatever the core and whatever
    [exclude] says; the selection step raises [ValueError] only out of
    [params.remove], that is with [pars] left out and a non-empty
    [exclude]. *)
Theorem plot_chains_pars_take_precedence :
  (forall core pars exclude,
     plot_chains_params core (Some pars) exclude = Ret pars) /\
  (forall core pars exclude,
     plot_chains_params core pars exclude = Raise ValueError ->
     pars = None /\ exists p rest, exclude = Some (p :: rest)).
Proof.
  split; [reflexivity|].
  intros core pars exclude H.
  destruct pars as [ps|]; [discriminate|]. split; [reflexivity|].
  destruct exclude as [[|p rest]|].
  - unfold plot_chains_params in H. cbn [is_given andb negb remove_all] in H.
    discriminate.
  - now exists p, rest.
  - unfold plot_chains_params in H. cbn [is_given andb negb] in H.
    destruct core as [ps|[|c0 cs]]; discriminate.
Qed.

End PlotChainsSelection.

(** ** [plot_chains]: pulsar name and grid of subplots *)

Module PlotChainsLayout.

Import PlotChains.

(** Lines 115-122: the name guessed from the first parameter, [None] when a
    title is given. *)
Definition guess_psr_name (params : list string) (suptitle : option string)
  : outcome (option string) :=
  match suptitle with
  | Some _ => Ret None
  | None =>
      match params with
      | [] => Raise IndexError
      | psr_name :: _ =>
          match psr_name with
          | EmptyString => Raise IndexError
          | String c _ =>
              if Ascii.eqb c "B"%char then Ret (Some (substring 0 8 psr_name))
              else if Ascii.eqb c "J"%char then Ret (Some (substring 0 10 psr_name))
              else Ret (Some psr_name)
          end
      end
  end.

(** Lines 124-126. *)
Definition grid_rows (L ncols : Z) : outcome Z :=
  if (ncols =? 0)%Z then Raise ZeroDivisionError
  else
    let nrows := (L / ncols)%Z in
    Ret (if (0 <? L mod ncols)%Z then (nrows + 1)%Z else nrows).

(** Lines 79-126: the selection, [core[0].fancy_par_names] for a list of
    cores, the guessed name and the number of rows of subplots. *)
Definition plot_chains_layout (core : core_arg)
    (pars exclude : option (list string)) (suptitle : option string)
    (ncols : Z) : outcome (list string * option string * Z) :=
  params ← plot_chains_params core pars exclude;
  _ ← match core with
      | CoreList [] => Raise IndexError
      | _ => Ret tt
      end;
  psr_name ← guess_psr_name params suptitle;
  nrows ← grid_rows (Z.of_nat (length params)) ncols;
  Ret (params, psr_name, nrows).

Lemma substring_prefix (n : nat) (s : string) :
  String.prefix (substring 0 n s) s = true.
Proof.
  revert s. induction n as [|n IH]; intros s; destruct s as [|a s];
    cbn [substring String.prefix]; try reflexivity.
  destruct (Ascii.ascii_dec a a); [apply IH | congruence].
Qed.

Lemma prefix_refl (s : string) : String.prefix s s = true.
Proof.
  induction s as [|a s IH]; cbn [String.prefix]; [reflexivity|].
  destruct (Ascii.ascii_dec a a); [exact IH | congruence].
Qed.

(** The cell [ii + 1] of every parameter lies on the grid, and the grid has
    no empty row: with a positive number of columns, the number of rows is
    the least one whose cells hold all selected parameters.  Without a
    title, there is at least one parameter and the guessed name is a
    non-empty prefix of the first one. *)
Theorem plot_chains_grid_fits (core : core_arg)
    (pars exclude : option (list string)) (suptitle : option string)
    (ncols : Z) (params : list string) (psr_name : option string)
    (nrows : Z) :
  (0 < ncols)%Z ->
  plot_chains_layout core pars exclude suptitle ncols
    = Ret (params, psr_name, nrows) ->
  plot_chains_params core pars exclude = Ret params /\
  (nrows * ncols - ncols < Z.of_nat (length params) <= nrows * ncols)%Z /\
  (forall ii, (ii < length params)%nat ->
     (1 <= Z.of_nat ii + 1 <= nrows * ncols)%Z) /\
  (suptitle = None ->
   exists p0 rest name,
     params = p0 :: rest /\ psr_name = Some name /\
     name <> EmptyString /\ String.prefix name p0 = true).
Proof.
  intros Hn. unfold plot_chains_layout.
  destruct (plot_chains_params core pars exclude) as [ps|e];
    cbn [mbind outcome_bind bind]; [|discriminate].
  destruct (match core with CoreList [] => Raise IndexError | _ => Ret tt end)
    as [[]|e]; cbn [mbind outcome_bind bind]; [|discriminate].
  destruct (guess_psr_name ps suptitle) as [name|e] eqn:Hname;
    cbn [mbind outcome_bind bind]; [|discriminate].
  unfold grid_rows.
  destruct (ncols =? 0)%Z eqn:E0; [apply Z.eqb_eq in E0; lia|].
  cbn [mbind outcome_bind bind]. intros H. injection H as <- <- <-.
  split; [reflexivity|].
  set (L := Z.of_nat (length ps)).
  pose proof (Z.div_mod L ncols ltac:(lia)) as Hdm.
  pose proof (Z.mod_pos_bound L ncols Hn) as Hmod.
  assert (Hfit : ((if (0 <? L mod ncols)%Z then (L / ncols + 1)%Z
                   else (L / ncols)%Z) * ncols - ncols < L
                  <= (if (0 <? L mod ncols)%Z then (L / ncols + 1)%Z
                      else (L / ncols)%Z) * ncols)%Z).
  { destruct (0 <? L mod ncols)%Z eqn:E.
    - apply Z.ltb_lt in E. nia.
    - apply Z.ltb_ge in E. nia. }
  split; [exact Hfit|]. split; [intros ii Hii; subst L; lia|].
  intros ->. cbn [guess_psr_name] in Hname.
  destruct ps as [|p0 rest]; [discriminate|].
  destruct p0 as [|c s]; [discriminate|].
  exists (String c s), rest.
  destruct (Ascii.eqb c "B"%char); [|destruct (Ascii.eqb c "J"%char)];
    injection Hname as <-; eexists; (split; [reflexivity|]);
    (split; [reflexivity|]); (split; [discriminate|]).
  - exact (substring_prefix 8 (String c s)).
  - exact (substring_prefix 10 (String c s)).
  - apply prefix_refl.
Qed.

Lemma plot_chains_grid_fits_witness :
  plot_chains_params (Core ["J1713+0747_efac"; "J1713+0747_equad";
                            "J1713+0747_log10_A"; "lnpost"]%string)
                     None (Some ["lnpost"]%string)
    = Ret ["J1713+0747_efac"; "J1713+0747_equad";
           "J1713+0747_log10_A"]%string /\
  (1 * 3 - 3 < Z.of_nat 3 <= 1 * 3)%Z /\
  (forall ii, (ii < 3)%nat -> (1 <= Z.of_nat ii + 1 <= 1 * 3)%Z) /\
  (@None string = None ->
   exists p0 rest name,
     ["J1713+0747_efac"; "J1713+0747_equad"; "J1713+0747_log10_A"]%string
       = p0 :: rest /\
     Some "J1713+0747"%string = Some name /\
     name <> EmptyString /\ String.prefix name p0 = true).
Proof.
  apply (plot_chains_grid_fits
           (Core ["J1713+0747_efac"; "J1713+0747_equad";
                  "J1713+0747_log10_A"; "lnpost"]%string)
           None (Some ["lnpost"]%string) None 3);
    [lia | vm_compute; reflexivity].
Defined.

(** With a list of cores and [exclude] alone, no figure is ever laid out
    unless a title is given and nothing is excluded: the selection is empty,
    so [params.remove] raises [ValueError], or, when [exclude] is empty and
    no title is given, [params[0]] raises [IndexError]. *)
Theorem plot_chains_exclude_core_list_fails
    (cores : list (list string)) (exclude : list string) (ncols : Z) :
  plot_chains_layout (CoreList cores) None (Some exclude) None ncols =
    Raise (match exclude with [] => IndexError | _ :: _ => ValueError end).
Proof.
  unfold plot_chains_layout.
  rewrite PlotChainsSelection.plot_chains_exclude_core_list_eq.
  destruct exclude as [|p rest]; cbn [mbind outcome_bind bind];
    [|reflexivity].
  destruct cores; reflexivity.
Qed.

End PlotChainsLayout.

(** ** [pp_plot]: calibration of an ensemble of simulated chains *)

Module PPPlot.

Local Open Scope Q_scope.

(** What [pp_plot] prints. *)
Inductive message : Type :=
| MsgNeedAnsJson
| MsgFolderSkipped (folder : string)
| MsgParamsNotFound
| MsgCountsDiffer
| MsgCounts (chains truths : nat).

(** The part of the file system that [pp_plot] reads: the paths that
    [os.scandir(chainfolder)] yields, [os.path.isdir], the object that
    [json.load] returns for [folder + '/ans.json'] ([None] when [open] or
    [json.load] raises) and [f.read().split('\n')] for
    [folder + '/pars.txt'] ([None] when [open] raises). *)
Record filesystem : Type := mk_filesystem {
  scandir : list string;
  isdir : string -> bool;
  ans_json : string -> option (gmap string Q);
  pars_txt : string -> option (list string)
}.

(** The returned tuple. *)
Record result : Type := mk_result {
  q : list Q;
  pvalues : list Q;
  cdf : list Q;
  sigma : list nproot
}.

(** [for x in l: ...] with a body that may raise. *)
Fixpoint traverse {A B : Type} (f : A -> outcome B) (l : list A)
  : outcome (list B) :=
  match l with
  | [] => Ret []
  | x :: rest => y ← f x; ys ← traverse f rest; Ret (y :: ys)
  end.

(** [x.split('_')[-1]]: what follows the last underscore, the whole string
    when there is none. *)
Fixpoint after_last (sep : ascii) (s : string) : option string :=
  match s with
  | EmptyString => None
  | String c rest =>
      match after_last sep rest with
      | Some t => Some t
      | None => if Ascii.eqb c sep then Some rest else None
      end
  end.

Definition last_field (s : string) : string :=
  match after_last "_"%char s with
  | Some t => t
  | None => s
  end.

(** A stable sort by an integer key ([list.sort(key=...)]); also used for
    [a[a[:, 0].argsort()]], where rows with equal keys are taken to keep
    their order. *)
Fixpoint insert_by {A : Type} (key : A -> Z) (x : A) (l : list A) : list A :=
  match l with
  | [] => [x]
  | y :: rest =>
      if (key x <=? key y)%Z then x :: l else y :: insert_by key x rest
  end.

Definition sort_by {A : Type} (key : A -> Z) (l : list A) : list A :=
  fold_right (insert_by key) [] l.

(** [np.column_stack] of two 1-D arrays. *)
Definition column_stack (num_array : list Z) (answer_array : list Q)
  : outcome (list (Z * Q)) :=
  if (length num_array =? length answer_array)%nat
  then Ret (combine num_array answer_array)
  else Raise ValueError.

(** [int(x)] for a non-negative float [x]: truncation. *)
Definition int_of_float (x : Q) : Z := Z.quot (Qnum x) (Zpos (Qden x)).

(** [v[start::step]] for a 1-D array and [step > 0]. *)
Definition slice_step (v : list Q) (start step : nat) : list Q :=
  map (fun k => nth (start + k * step) v 0)
      (seq 0 ((length v - start + step - 1) / step)).

(** [np.where(v < t)[0]]. *)
Definition where_lt (v : list Q) (t : Q) : list nat :=
  List.filter (fun i => match nth_error v i with
                        | Some x => Qltb x t
                        | None => false
                        end) (seq 0 (length v)).

(** [np.linspace(start, stop, num)], in exact arithmetic: the end points
    are as in NumPy, an interior point is [start + i * step] without the
    rounding of binary64 (NumPy's point 3 of 11 is 0.30000000000000004). *)
Definition linspace (start stop : Q) (num : nat) : list Q :=
  let div := (num - 1)%nat in
  let delta := stop - start in
  let y := map qnat (seq 0 num) in
  let y := if (0 <? div)%nat
           then map (fun v => v * (delta / qnat div)) y
           else map (fun v => v * delta) y in
  let y := map (fun v => v + start) y in
  if (1 <? num)%nat then removelast y ++ [stop] else y.

(** No thinning (line 501). *)
Definition tau : nat := 1.

(** Line 502 for one [i]. *)
Definition pvalue (chain : ndarray) (a : list (Z * Q)) (burn i : nat)
  : outcome Q :=
  match nth_error a i with
  | None => Raise IndexError
  | Some (_, truth) =>
      let kept := slice_step (column chain i) burn tau in
      int_truediv (Z.of_nat (length (where_lt kept truth)))
                  (Z.of_nat (length kept))
  end.

(** Lines 497-528, the figure apart. *)
Definition analyse (chain : ndarray) (a : list (Z * Q)) : outcome result :=
  burn ← (if (ncols chain =? 0)%nat then Raise IndexError
           else Ret (Z.to_nat (int_of_float ((1 # 4) * qnat (nrows chain)))));
  pvalues ← traverse (pvalue chain a burn) (seq 0 (ncols chain));
  let q := linspace 0 1 (length pvalues) in
  let p := linspace 0 1 1000 in
  cdf ← traverse (fun qi =>
                    int_truediv (Z.of_nat (length (where_lt pvalues qi)))
                                (Z.of_nat (length pvalues))) q;
  let NUM_REALS := length cdf in
  let sigma := map (fun pj => Np.sqrt (true_divide (pj * (1 - pj))
                                                   (qnat NUM_REALS))) p in
  Ret {| q := q; pvalues := pvalues; cdf := cdf; sigma := sigma |}.

Section External.

(** [int] on a string ([ValueError] when it is not a number). *)
Variable int_of : string -> outcome Z.

(** [SlicesCore(slicedirs=..., pars2pull=..., params=...).chain], from
    [la_forge.slices]. *)
Variable SlicesCore : list string -> list string -> list string -> outcome ndarray.

Variable fs : filesystem.
Variable param : string.

(** Lines 450-452. *)
Definition sorted_subfolders : outcome (list string) :=
  let subfolders := List.filter (isdir fs) (scandir fs) in
  keys ← traverse (fun x => int_of (last_field x)) subfolders;
  Ret (map snd (sort_by fst (combine keys subfolders))).

(** The state of the loop of lines 456-474. *)
Record loop_state : Type := mk_loop_state {
  subfolders : list string;
  answer_list : list Q;
  num_list : list string;
  printed : list message
}.

(** Lines 456-474: the iteration at position [i] of the list iterator and
    those after it.  The iterator reads [subfolders] as it is at each step,
    so a removal shifts what the next step sees.  [None]: more steps than
    [fuel] allows. *)
Fixpoint answers_loop (fuel i : nat) (st : loop_state)
  : option (outcome loop_state * list message) :=
  match fuel with
  | O => None
  | S fuel' =>
      match nth_error (subfolders st) i with
      | None => Some (Ret st, printed st)
      | Some folder =>
          let num := last_field folder in
          let st := {| subfolders := subfolders st;
                       answer_list := answer_list st;
                       num_list := num_list st ++ [num];
                       printed := printed st |} in
          if negb (isdir fs folder) then answers_loop fuel' (S i) st
          else
            match ans_json fs folder with
            | None =>
                let out := printed st ++ [MsgNeedAnsJson; MsgFolderSkipped folder] in
                match PlotChains.list_remove folder (subfolders st) with
                | Raise e => Some (Raise e, out)
                | Ret rest =>
                    answers_loop fuel' (S i)
                      {| subfolders := rest;
                         answer_list := answer_list st;
                         num_list := num_list st;
                         printed := out |}
                end
            | Some ans =>
                let found :=
                  match ans !! param with
                  | Some v => Ret v
                  | None =>
                      match ans !! "gw_log10_A"%string with
                      | Some v => Ret v
                      | None => Raise KeyError
                      end
                  end in
                match found with
                | Raise e => Some (Raise e, printed st)
                | Ret v =>
                    answers_loop fuel' (S i)
                      {| subfolders := subfolders st;
                         answer_list := answer_list st ++ [v];
                         num_list := num_list st;
                         printed := printed st |}
                end
            end
      end
  end.

(** Lines 450-481: the folders that remain, [answer_array] and the table
    [a] of numbers and injected values. *)
Definition collect
  : option (outcome (list string * list Q * list (Z * Q)) * list message) :=
  match sorted_subfolders with
  | Raise e => Some (Raise e, [])
  | Ret subs =>
      match answers_loop (S (length subs)) 0
              {| subfolders := subs; answer_list := [];
                 num_list := []; printed := [] |} with
      | None => None
      | Some (Raise e, out) => Some (Raise e, out)
      | Some (Ret st, out) =>
          Some ((num_array ← traverse int_of (num_list st);
                 a ← column_stack num_array (answer_list st);
                 Ret (subfolders st, answer_list st, sort_by fst a)), out)
      end
  end.

(** Lines 483-490: [None] stands for the bare [except].  Nothing in the
    [try] raises [TypeError], so the handler of lines 486-488 is left out. *)
Definition read_pars (subs : list string) : option (list string) :=
  match subs with
  | [] => None
  | first :: _ =>
      match pars_txt fs first with
      | None => None
      | Some lines => Some (removelast lines)
      end
  end.

(** Lines 440-528; the figure is left out.  [Ret None] is the bare
    [return None]. *)
Definition pp_plot : option (outcome (option result) * list message) :=
  match collect with
  | None => None
  | Some (Raise e, out) => Some (Raise e, out)
  | Some (Ret (subs, answer_array, a), out) =>
      match read_pars subs with
      | None => Some (Ret None, out ++ [MsgParamsNotFound])
      | Some pars =>
          match SlicesCore subs [param] pars with
          | Raise e => Some (Raise e, out)
          | Ret chain =>
              if negb (ncols chain =? length answer_array)%nat
              then Some (Ret None,
                         out ++ [MsgCountsDiffer;
                                 MsgCounts (ncols chain)
                                           (length answer_array)])
              else Some (res ← analyse chain a; Ret (Some res), out)
          end
      end
  end.

End External.

(** *** The numerical part *)

Lemma traverse_map {A B : Type} (f : A -> outcome B) (g : A -> B)
    (l : list A) :
  (forall x, In x l -> f x = Ret (g x)) -> traverse f l = Ret (map g l).
Proof.
  induction l as [|x l IH]; intros H; [reflexivity|].
  cbn [traverse map]. rewrite (H x) by (now left).
  cbn [mbind outcome_bind bind].
  rewrite IH by (intros y Hy; apply H; now right). reflexivity.
Qed.

Lemma traverse_length {A B : Type} (f : A -> outcome B) (l : list A)
    (ys : list B) :
  traverse f l = Ret ys -> length ys = length l.
Proof.
  revert ys. induction l as [|x l IH]; intros ys; cbn [traverse].
  - intros H. injection H as <-. reflexivity.
  - destruct (f x) as [y|e]; cbn [mbind outcome_bind bind]; [|discriminate].
    destruct (traverse f l) as [ys'|e]; cbn [mbind outcome_bind bind];
      [|discriminate].
    intros H. injection H as <-. cbn [length]. f_equal. now apply IH.
Qed.

(** [int(0.25 * L)] is the integer quotient of [L] by 4. *)
Lemma int_quarter (L : nat) :
  int_of_float ((1 # 4) * qnat L) = (Z.of_nat L / 4)%Z.
Proof.
  unfold int_of_float, qnat, inject_Z, Qmult. cbn [Qnum Qden].
  rewrite Z.mul_1_l. change (Z.pos (4 * 1)) with 4%Z.
  apply Z.quot_div_nonneg; lia.
Qed.

Lemma nth_map_seq {A : Type} (f : nat -> A) (m n : nat) (d : A) :
  (n < m)%nat -> nth n (map f (seq 0 m)) d = f n.
Proof.
  intros Hn. rewrite (nth_indep _ d (f O))
    by (now rewrite length_map, length_seq).
  rewrite map_nth, seq_nth by exact Hn. reflexivity.
Qed.

(** With a step of 1 the slice is the tail of the array. *)
Lemma slice_step_one (v : list Q) (start : nat) :
  slice_step v start 1 = skipn start v.
Proof.
  unfold slice_step.
  replace ((length v - start + 1 - 1) / 1)%nat with (length v - start)%nat
    by (rewrite Nat.div_1_r; lia).
  apply (nth_ext _ _ 0 0).
  - now rewrite length_map, length_seq, length_skipn.
  - intros n Hn. rewrite length_map, length_seq in Hn.
    rewrite nth_map_seq by exact Hn.
    rewrite nth_skipn. f_equal. lia.
Qed.

Lemma where_lt_shift (pre v : list Q) (t : Q) :
  length (List.filter
            (fun i => match nth_error (pre ++ v) i with
                      | Some x => Qltb x t
                      | None => false
                      end) (seq (length pre) (length v)))
  = length (List.filter (fun x => Qltb x t) v).
Proof.
  revert pre. induction v as [|x v IH]; intros pre; [reflexivity|].
  cbn [length seq List.filter].
  rewrite nth_error_app2 by lia. rewrite Nat.sub_diag. cbn [nth_error].
  specialize (IH (pre ++ [x])).
  rewrite <- app_assoc, length_app in IH. cbn [app length] in IH.
  rewrite Nat.add_1_r in IH.
  destruct (Qltb x t); cbn [length]; now rewrite IH.
Qed.

(** [len(np.where(v < t)[0])] counts the entries below [t]. *)
Lemma where_lt_count (v : list Q) (t : Q) :
  length (where_lt v t) = length (List.filter (fun x => Qltb x t) v).
Proof. exact (where_lt_shift [] v t). Qed.

Lemma column_length (chain : ndarray) (i : nat) :
  length (column chain i) = nrows chain.
Proof. unfold column. now rewrite length_map, length_seq. Qed.

(** The fraction of line 502, on the samples after the burn-in. *)
Definition fraction_below (samples : list Q) (truth : Q) : Q :=
  inject_Z (Z.of_nat (length (List.filter (fun s => Qltb s truth) samples)))
  / inject_Z (Z.of_nat (length samples)).

Lemma pvalue_ok (chain : ndarray) (a : list (Z * Q)) (burn i : nat)
    (k : Z) (truth : Q) :
  nth_error a i = Some (k, truth) -> (burn < nrows chain)%nat ->
  pvalue chain a burn i =
    Ret (fraction_below (skipn burn (column chain i)) truth).
Proof.
  intros Ha Hb. unfold pvalue, tau. rewrite Ha. cbv zeta.
  rewrite slice_step_one, where_lt_count. unfold int_truediv.
  destruct (Z.of_nat (length (skipn burn (column chain i))) =? 0)%Z eqn:E;
    [|reflexivity].
  apply Z.eqb_eq in E. rewrite length_skipn, column_length in E. lia.
Qed.

Lemma linspace_length (start stop : Q) (num : nat) :
  length (linspace start stop num) = num.
Proof.
  unfold linspace. cbv zeta.
  set (y := map (fun v => v + start) _).
  assert (Hy : length y = num).
  { subst y. rewrite length_map.
    destruct (0 <? num - 1)%nat; now rewrite !length_map, length_seq. }
  destruct (1 <? num)%nat eqn:E; [|exact Hy].
  apply Nat.ltb_lt in E.
  rewrite length_app, removelast_firstn_len, length_firstn, Hy.
  cbn [length]. lia.
Qed.

Lemma linspace_unit (m : nat) :
  linspace 0 1 (S (S m)) =
    map (fun i => qnat i * ((1 - 0) / qnat (S m)) + 0) (seq 0 (S m)) ++ [1].
Proof.
  unfold linspace. cbv zeta.
  change (S (S m) - 1)%nat with (S m).
  change (0 <? S m)%nat with true. change (1 <? S (S m))%nat with true.
  cbv iota. rewrite (seq_S (S m) 0). rewrite !map_app.
  cbn [map]. rewrite removelast_last, !map_map. reflexivity.
Qed.

(** The grid [np.linspace(0, 1, n)] for [n >= 2]: the points [i / (n - 1)]. *)
Lemma linspace_unit_nth (n i : nat) :
  (2 <= n)%nat -> (i < n)%nat ->
  nth i (linspace 0 1 n) 0 == qnat i / qnat (n - 1).
Proof.
  intros Hn Hi. destruct n as [|[|m]]; [lia | lia |].
  rewrite linspace_unit. change (S (S m) - 1)%nat with (S m).
  pose proof (Grubin.qnat_pos (S m) ltac:(lia)) as Hpos.
  destruct (Nat.eq_dec i (S m)) as [->|Hne].
  - rewrite app_nth2 by (rewrite length_map, length_seq; lia).
    rewrite length_map, length_seq, Nat.sub_diag. cbn [nth].
    field. lra.
  - rewrite app_nth1 by (rewrite length_map, length_seq; lia).
    rewrite nth_map_seq by lia. field. lra.
Qed.

(** The radicand of [sigma] at a grid point. *)
Definition band (NUM_REALS : nat) (pj : Q) : nproot :=
  Np.sqrt (true_divide (pj * (1 - pj)) (qnat NUM_REALS)).

(** What [analyse] computes on a chain with at least one row whose number
    of columns is the number of rows of [a]. *)
Lemma analyse_ok (chain : ndarray) (a : list (Z * Q)) :
  (0 < ncols chain)%nat -> ncols chain = length a -> (0 < nrows chain)%nat ->
  let n := ncols chain in
  let burn := Z.to_nat (Z.of_nat (nrows chain) / 4) in
  let pv := map (fun i => fraction_below (skipn burn (column chain i))
                                         (nth i (map snd a) 0))
                (seq 0 n) in
  analyse chain a =
    Ret {| q := linspace 0 1 n;
           pvalues := pv;
           cdf := map (fraction_below pv) (linspace 0 1 n);
           sigma := map (band n) (linspace 0 1 1000) |}.
Proof.
  intros Hc Ha Hr n burn pv. unfold analyse.
  destruct (ncols chain =? 0)%nat eqn:E; [apply Nat.eqb_eq in E; lia|].
  cbn [mbind outcome_bind bind]. rewrite int_quarter. fold burn.
  assert (Hburn : (burn < nrows chain)%nat).
  { subst burn. apply Nat2Z.inj_lt. rewrite Z2Nat.id
      by (apply Z.div_pos; lia).
    apply Z.div_lt; lia. }
  rewrite (traverse_map _
             (fun i => fraction_below (skipn burn (column chain i))
                                      (nth i (map snd a) 0))).
  2:{ intros i Hi. apply in_seq in Hi.
      destruct (nth_error a i) as [[k t]|] eqn:Hai.
      - rewrite (pvalue_ok chain a burn i k t Hai Hburn). do 2 f_equal.
        symmetry. apply nth_error_nth. rewrite nth_error_map, Hai.
        reflexivity.
      - apply nth_error_None in Hai. lia. }
  cbn [mbind outcome_bind bind]. fold n. fold pv.
  assert (Hpv : length pv = n)
    by (subst pv; now rewrite length_map, length_seq).
  rewrite Hpv.
  rewrite (traverse_map _ (fraction_below pv)).
  2:{ intros qi _. rewrite where_lt_count. unfold int_truediv.
      destruct (Z.of_nat n =? 0)%Z eqn:En; [apply Z.eqb_eq in En; lia|].
      unfold fraction_below. rewrite Hpv. reflexivity. }
  cbn [mbind outcome_bind bind].
  rewrite length_map, linspace_length. reflexivity.
Qed.

(** *** The loop over the folders *)

Lemma list_remove_length (p : string) (l r : list string) :
  PlotChains.list_remove p l = Ret r -> length l = S (length r).
Proof.
  revert r. induction l as [|x l IH]; intros r; cbn [PlotChains.list_remove];
    [discriminate|].
  destruct (String.eqb x p).
  - intros H. injection H as <-. reflexivity.
  - destruct (PlotChains.list_remove p l) as [r'|e];
      cbn [mbind outcome_bind bind]; [|discriminate].
    intros H. injection H as <-. cbn [length]. f_equal. now apply IH.
Qed.

Section Properties.

Variable int_of : string -> outcome Z.
Variable SlicesCore : list string -> list string -> list string -> outcome ndarray.
Variable fs : filesystem.
Variable param : string.

(** [ans[param]], or [ans['gw_log10_A']] when [param] is not a key. *)
Definition truth_of (ans : gmap string Q) : option Q :=
  match ans !! param with
  | Some v => Some v
  | None => ans !! "gw_log10_A"%string
  end.

(** The loop ends: each step moves the iterator forward and the list never
    grows. *)
Lemma answers_loop_total (fuel i : nat) (st : loop_state) :
  (length (subfolders st) - i < fuel)%nat ->
  exists r, answers_loop fs param fuel i st = Some r.
Proof.
  revert i st. induction fuel as [|fuel IH]; intros i st Hf; [lia|].
  cbn [answers_loop].
  destruct (nth_error (subfolders st) i) as [folder|] eqn:Hi;
    [|eexists; reflexivity].
  assert (Hlt : (i < length (subfolders st))%nat)
    by (apply nth_error_Some; congruence).
  cbv zeta. cbn [subfolders answer_list num_list printed].
  destruct (negb (isdir fs folder)).
  { apply IH. cbn [subfolders]. lia. }
  destruct (ans_json fs folder) as [ans|].
  - destruct (ans !! param) as [v|].
    { apply IH. cbn [subfolders]. lia. }
    destruct (ans !! "gw_log10_A"%string) as [v|].
    { apply IH. cbn [subfolders]. lia. }
    eexists; reflexivity.
  - destruct (PlotChains.list_remove folder (subfolders st)) as [rest|e] eqn:Hr;
      [|eexists; reflexivity].
    apply IH. cbn [subfolders]. apply list_remove_length in Hr. lia.
Qed.

Lemma collect_total : exists r, collect int_of fs param = Some r.
Proof.
  unfold collect. destruct (sorted_subfolders int_of fs) as [subs|e];
    [|eexists; reflexivity].
  destruct (answers_loop_total (S (length subs)) 0
              {| subfolders := subs; answer_list := [];
                 num_list := []; printed := [] |}) as [[[st|e] out] Hr];
    [cbn [subfolders]; lia | |]; rewrite Hr; eexists; reflexivity.
Qed.

(** [pp_plot] always comes to an end. *)
Lemma pp_plot_total : exists r, pp_plot int_of SlicesCore fs param = Some r.
Proof.
  unfold pp_plot. destruct collect_total as [[[[[subs ans] a]|e] out] Hc];
    rewrite Hc; [|eexists; reflexivity].
  destruct (read_pars fs subs) as [pars|]; [|eexists; reflexivity].
  destruct (SlicesCore subs [param] pars) as [chain|e];
    [|eexists; reflexivity].
  destruct (negb (ncols chain =? length ans)%nat); eexists; reflexivity.
Qed.

(** Every step appends a number; only a folder whose [ans.json] was read
    appends an answer. *)
Lemma answers_loop_excess (fuel i : nat) (st st' : loop_state)
    (out : list message) :
  answers_loop fs param fuel i st = Some (Ret st', out) ->
  (length (num_list st) + length (answer_list st')
   <= length (num_list st') + length (answer_list st))%nat.
Proof.
  revert i st. induction fuel as [|fuel IH]; intros i st; cbn [answers_loop];
    [discriminate|].
  destruct (nth_error (subfolders st) i) as [folder|] eqn:Hi.
  2:{ intros H. injection H as <- _. lia. }
  cbv zeta. cbn [subfolders answer_list num_list printed].
  destruct (negb (isdir fs folder)).
  { intros H. apply IH in H. cbn [num_list answer_list] in H.
    rewrite length_app in H. cbn [length] in H. lia. }
  destruct (ans_json fs folder) as [ans|].
  - destruct (ans !! param) as [v|].
    { intros H. apply IH in H. cbn [num_list answer_list] in H.
      rewrite !length_app in H. cbn [length] in H. lia. }
    destruct (ans !! "gw_log10_A"%string) as [v|]; [|discriminate].
    intros H. apply IH in H. cbn [num_list answer_list] in H.
    rewrite !length_app in H. cbn [length] in H. lia.
  - destruct (PlotChains.list_remove folder (subfolders st)) as [rest|e];
      [|discriminate].
    intros H. apply IH in H. cbn [num_list answer_list] in H.
    rewrite length_app in H. cbn [length] in H. lia.
Qed.

(** A folder without [ans.json] at or after the iterator leaves more
    numbers than answers. *)
Lemma answers_loop_missing (fuel i j : nat) (st st' : loop_state)
    (out : list message) (folder : string) :
  answers_loop fs param fuel i st = Some (Ret st', out) ->
  (i <= j)%nat -> nth_error (subfolders st) j = Some folder ->
  ans_json fs folder = None ->
  (length (num_list st) + length (answer_list st')
   < length (num_list st') + length (answer_list st))%nat.
Proof.
  revert i st. induction fuel as [|fuel IH]; intros i st; cbn [answers_loop];
    [discriminate|].
  intros H Hij Hj Hmiss.
  destruct (nth_error (subfolders st) i) as [fi|] eqn:Hi.
  2:{ apply nth_error_None in Hi.
      assert (j < length (subfolders st))%nat
        by (apply nth_error_Some; congruence).
      lia. }
  cbv zeta in H. cbn [subfolders answer_list num_list printed] in H.
  destruct (negb (isdir fs fi)).
  { apply answers_loop_excess in H. cbn [num_list answer_list] in H.
    rewrite length_app in H. cbn [length] in H. lia. }
  destruct (ans_json fs fi) as [ans|] eqn:Hans.
  - assert (Hne : i <> j) by (intros ->; congruence).
    destruct (ans !! param) as [v|].
    { apply IH in H; [|lia|exact Hj|exact Hmiss].
      cbn [num_list answer_list] in H.
      rewrite !length_app in H. cbn [length] in H. lia. }
    destruct (ans !! "gw_log10_A"%string) as [v|]; [|discriminate].
    apply IH in H; [|lia|exact Hj|exact Hmiss].
    cbn [num_list answer_list] in H.
    rewrite !length_app in H. cbn [length] in H. lia.
  - destruct (PlotChains.list_remove fi (subfolders st)) as [rest|e];
      [|discriminate].
    apply answers_loop_excess in H. cbn [num_list answer_list] in H.
    rewrite length_app in H. cbn [length] in H. lia.
Qed.

End Properties.

(** *** Sorting by an integer key *)

Definition key_le {A : Type} (key : A -> Z) (x y : A) : Prop :=
  (key x <= key y)%Z.

Lemma insert_by_perm {A : Type} (key : A -> Z) (x : A) (l : list A) :
  Permutation (insert_by key x l) (x :: l).
Proof.
  induction l as [|y l IH]; cbn [insert_by]; [reflexivity|].
  destruct (key x <=? key y)%Z; [reflexivity|].
  rewrite IH. apply perm_swap.
Qed.

Lemma sort_by_perm {A : Type} (key : A -> Z) (l : list A) :
  Permutation (sort_by key l) l.
Proof.
  induction l as [|x l IH]; [reflexivity|].
  change (sort_by key (x :: l)) with (insert_by key x (sort_by key l)).
  rewrite insert_by_perm. now apply perm_skip.
Qed.

Lemma insert_by_sorted {A : Type} (key : A -> Z) (x : A) (l : list A) :
  StronglySorted (key_le key) l ->
  StronglySorted (key_le key) (insert_by key x l).
Proof.
  induction 1 as [|y l Hs IH Hall]; cbn [insert_by].
  - repeat constructor.
  - rewrite List.Forall_forall in Hall.
    destruct (key x <=? key y)%Z eqn:E.
    + apply Z.leb_le in E. constructor; [now constructor; [|apply List.Forall_forall]|].
      apply List.Forall_forall. intros z [<-|Hz]; [exact E|].
      specialize (Hall z Hz). unfold key_le in *. lia.
    + apply Z.leb_gt in E. constructor; [exact IH|].
      apply List.Forall_forall. intros z Hz.
      apply (Permutation_in _ (insert_by_perm key x l)) in Hz.
      destruct Hz as [<-|Hz]; [unfold key_le; lia | exact (Hall z Hz)].
Qed.

Lemma sort_by_sorted {A : Type} (key : A -> Z) (l : list A) :
  StronglySorted (key_le key) (sort_by key l).
Proof.
  induction l as [|x l IH]; [constructor|].
  change (sort_by key (x :: l)) with (insert_by key x (sort_by key l)).
  now apply insert_by_sorted.
Qed.

(** Sorting leaves a sorted list as it is. *)
Lemma sort_by_id {A : Type} (key : A -> Z) (l : list A) :
  StronglySorted (key_le key) l -> sort_by key l = l.
Proof.
  induction 1 as [|x l Hs IH Hall]; [reflexivity|].
  change (sort_by key (x :: l)) with (insert_by key x (sort_by key l)).
  rewrite IH. destruct l as [|y l]; [reflexivity|]. cbn [insert_by].
  apply Forall_inv in Hall. unfold key_le in Hall.
  apply Z.leb_le in Hall. now rewrite Hall.
Qed.

Lemma insert_by_map {A B : Type} (f : A -> B) (keyA : A -> Z) (keyB : B -> Z)
    (x : A) (l : list A) :
  (forall y, keyB (f y) = keyA y) ->
  insert_by keyB (f x) (map f l) = map f (insert_by keyA x l).
Proof.
  intros H. induction l as [|y l IH]; [reflexivity|].
  cbn [map insert_by]. rewrite !H.
  destruct (keyA x <=? keyA y)%Z; [reflexivity|].
  cbn [map]. now rewrite IH.
Qed.

Lemma sort_by_map {A B : Type} (f : A -> B) (keyA : A -> Z) (keyB : B -> Z)
    (l : list A) :
  (forall y, keyB (f y) = keyA y) ->
  sort_by keyB (map f l) = map f (sort_by keyA l).
Proof.
  intros H. induction l as [|x l IH]; [reflexivity|].
  cbn [map].
  change (sort_by keyB (f x :: map f l))
    with (insert_by keyB (f x) (sort_by keyB (map f l))).
  rewrite IH. now apply insert_by_map.
Qed.

Lemma sorted_map {A B : Type} (f : A -> B) (keyA : A -> Z) (keyB : B -> Z)
    (l : list A) :
  (forall y, keyB (f y) = keyA y) ->
  StronglySorted (key_le keyA) l -> StronglySorted (key_le keyB) (map f l).
Proof.
  intros H. induction 1 as [|x l Hs IH Hall]; cbn [map]; constructor.
  - exact IH.
  - rewrite List.Forall_forall in *. intros z Hz.
    apply in_map_iff in Hz. destruct Hz as [y [<- Hy]].
    unfold key_le. rewrite !H. exact (Hall y Hy).
Qed.

Lemma combine_map {A B C : Type} (f : A -> B) (g : A -> C) (l : list A) :
  combine (map f l) (map g l) = map (fun x => (f x, g x)) l.
Proof. induction l as [|x l IH]; cbn; [reflexivity | now rewrite IH]. Qed.

Lemma combine_map_l {A B : Type} (f : A -> B) (l : list A) :
  combine (map f l) l = map (fun x => (f x, x)) l.
Proof. induction l as [|x l IH]; cbn; [reflexivity | now rewrite IH]. Qed.

(** What [traverse] returns when it returns. *)
Lemma traverse_ret {A B : Type} (f : A -> outcome B) (d : B) (l : list A)
    (ys : list B) :
  traverse f l = Ret ys ->
  ys = map (fun x => match f x with Ret y => y | Raise _ => d end) l /\
  forall x, In x l -> exists y, f x = Ret y.
Proof.
  revert ys. induction l as [|x l IH]; intros ys; cbn [traverse].
  - intros H. injection H as <-. split; [reflexivity | intros x []].
  - destruct (f x) as [y|e] eqn:Hx; cbn [mbind outcome_bind bind];
      [|discriminate].
    destruct (traverse f l) as [ys'|e]; cbn [mbind outcome_bind bind];
      [|discriminate].
    intros H. injection H as <-. destruct (IH ys' eq_refl) as [-> Hall].
    split; [cbn [map]; now rewrite Hx|].
    intros z [<-|Hz]; [now exists y | exact (Hall z Hz)].
Qed.

Lemma traverse_raise {A B : Type} (f : A -> outcome B) (l : list A)
    (x : A) (e : exn) :
  In x l -> f x = Raise e -> exists e', traverse f l = Raise e'.
Proof.
  induction l as [|y l IH]; intros Hin Hx; [destruct Hin|].
  cbn [traverse]. destruct (f y) as [v|e1] eqn:Hy;
    cbn [mbind outcome_bind bind]; [|now exists e1].
  destruct Hin as [->|Hin]; [congruence|].
  destruct (IH Hin Hx) as [e' ->]. now exists e'.
Qed.

(** *** Folders, answers and early exits *)

Section Calibration.

Variable int_of : string -> outcome Z.
Variable SlicesCore : list string -> list string -> list string -> outcome ndarray.
Variable fs : filesystem.
Variable param : string.

(** The number at the end of a folder name. *)
Definition key_of (folder : string) : Z :=
  match int_of (last_field folder) with
  | Ret k => k
  | Raise _ => 0%Z
  end.

(** The injected value of a folder. *)
Definition truth (folder : string) : Q :=
  match ans_json fs folder with
  | Some ans => match truth_of param ans with Some v => v | None => 0 end
  | None => 0
  end.

Lemma sorted_subfolders_ok (subs : list string) :
  sorted_subfolders int_of fs = Ret subs ->
  subs = sort_by key_of (List.filter (isdir fs) (scandir fs)) /\
  forall f, In f subs -> int_of (last_field f) = Ret (key_of f).
Proof.
  unfold sorted_subfolders. cbv zeta.
  set (l := List.filter (isdir fs) (scandir fs)).
  destruct (traverse (fun x => int_of (last_field x)) l) as [keys|e] eqn:Hk;
    cbn [mbind outcome_bind bind]; [|discriminate].
  intros H. injection H as <-.
  destruct (traverse_ret _ 0%Z l keys Hk) as [-> Hall].
  fold key_of. 
  assert (Hsort : map snd (sort_by fst (combine (map key_of l) l))
                  = sort_by key_of l).
  { rewrite combine_map_l.
    rewrite (sort_by_map (fun x => (key_of x, x)) key_of fst)
      by reflexivity.
    rewrite map_map. cbn [snd]. apply map_id. }
  change (map (fun x => match int_of (last_field x) with
                        | Ret y => y
                        | Raise _ => 0%Z
                        end) l) with (map key_of l).
  rewrite Hsort. split; [reflexivity|].
  intros f Hf. apply (Permutation_in _ (sort_by_perm key_of l)) in Hf.
  destruct (Hall f Hf) as [y Hy]. unfold key_of. now rewrite Hy.
Qed.

(** A directory whose name does not end in a number stops [pp_plot] at the
    sort of line 452: the exception of [int] is raised before any file is
    read and nothing is printed. *)
Theorem pp_plot_folder_without_number (f : string) (e : exn) :
  In f (scandir fs) -> isdir fs f = true ->
  int_of (last_field f) = Raise e ->
  exists e', sorted_subfolders int_of fs = Raise e' /\
             pp_plot int_of SlicesCore fs param = Some (Raise e', []).
Proof.
  intros Hin Hdir He.
  assert (Hf : In f (List.filter (isdir fs) (scandir fs)))
    by (apply filter_In; split; assumption).
  destruct (traverse_raise (fun x => int_of (last_field x)) _ f e Hf He)
    as [e' He'].
  exists e'.
  assert (Hs : sorted_subfolders int_of fs = Raise e').
  { unfold sorted_subfolders. cbv zeta. rewrite He'. reflexivity. }
  split; [exact Hs|]. unfold pp_plot, collect. rewrite Hs. reflexivity.
Qed.

(** Without any sub-directory, [subfolders[0]] fails inside the [try] of
    line 483: [pp_plot] prints that the parameter file was not found and
    returns [None]. *)
Theorem pp_plot_no_subfolder :
  (forall f, In f (scandir fs) -> isdir fs f = false) ->
  pp_plot int_of SlicesCore fs param = Some (Ret None, [MsgParamsNotFound]).
Proof.
  intros Hnone.
  assert (Hf : List.filter (isdir fs) (scandir fs) = []).
  { induction (scandir fs) as [|x l IH]; [reflexivity|].
    cbn [List.filter]. rewrite (Hnone x) by (now left).
    apply IH. intros f Hf. apply Hnone. now right. }
  unfold pp_plot, collect, sorted_subfolders. rewrite Hf. reflexivity.
Qed.

(** A sub-directory without a readable [ans.json] is not skipped: its
    number stays in [num_list] (and removing it from the list under
    iteration makes the iterator pass over the next folder), so that
    [pp_plot] ends in an exception, never in a result. *)
Theorem pp_plot_missing_answer_raises (f : string) :
  In f (scandir fs) -> isdir fs f = true -> ans_json fs f = None ->
  exists e out, pp_plot int_of SlicesCore fs param = Some (Raise e, out).
Proof.
  intros Hin Hdir Hmiss. unfold pp_plot, collect.
  destruct (sorted_subfolders int_of fs) as [subs|e] eqn:Hs;
    [|now exists e, []].
  destruct (sorted_subfolders_ok subs Hs) as [Hsubs _].
  assert (Hf : In f subs).
  { rewrite Hsubs.
    apply (Permutation_in _ (Permutation_sym (sort_by_perm key_of _))).
    apply filter_In. split; assumption. }
  apply In_nth_error in Hf. destruct Hf as [j Hj].
  destruct (answers_loop_total fs param (S (length subs)) 0
              {| subfolders := subs; answer_list := [];
                 num_list := []; printed := [] |}) as [[[st|e] out] Hr];
    [cbn [subfolders]; lia | |]; rewrite Hr; [|now exists e, out].
  pose proof (answers_loop_missing fs param _ 0 j _ st out f Hr
                ltac:(lia) Hj Hmiss) as Hlen.
  cbn [num_list answer_list length] in Hlen.
  destruct (traverse int_of (num_list st)) as [nums|e] eqn:Hn;
    cbn [mbind outcome_bind bind]; [|now exists e, out].
  apply traverse_length in Hn. unfold column_stack.
  destruct (length nums =? length (answer_list st))%nat eqn:E;
    [apply Nat.eqb_eq in E; lia|].
  cbn [mbind outcome_bind bind]. now exists ValueError, out.
Qed.

(** [pp_plot] returns [None] only after it has said why: the parameter
    file of the first folder could not be read (or there is no folder), or
    the number of chains differs from the number of injected values. *)
Theorem pp_plot_none_is_reported (out : list message) :
  pp_plot int_of SlicesCore fs param = Some (Ret None, out) ->
  (exists out0, out = out0 ++ [MsgParamsNotFound]) \/
  (exists out0 chains truths,
     out = out0 ++ [MsgCountsDiffer; MsgCounts chains truths] /\
     chains <> truths).
Proof.
  unfold pp_plot.
  destruct (collect int_of fs param) as [[[[[subs ans] a]|e] out1]|];
    [|discriminate|discriminate].
  destruct (read_pars fs subs) as [pars|].
  2:{ intros H. injection H as <-. left. now exists out1. }
  destruct (SlicesCore subs [param] pars) as [chain|e]; [|discriminate].
  destruct (ncols chain =? length ans)%nat eqn:E; cbn [negb].
  - destruct (analyse chain a); cbn [mbind outcome_bind bind]; discriminate.
  - intros H. injection H as <-. right.
    exists out1, (ncols chain), (length ans).
    split; [reflexivity | now apply Nat.eqb_neq].
Qed.

(** *** When every folder has its answer *)

Lemma skipn_nth_error {A : Type} (l : list A) (i : nat) (x : A) :
  nth_error l i = Some x -> skipn i l = x :: skipn (S i) l.
Proof.
  revert l. induction i as [|i IH]; intros [|y l] H; try discriminate.
  - injection H as ->. reflexivity.
  - cbn [nth_error] in H. change (skipn (S i) (y :: l)) with (skipn i l).
    now rewrite (IH l H).
Qed.

Lemma traverse_map_in {A B C : Type} (f : B -> outcome C) (h : A -> B)
    (g : A -> C) (l : list A) :
  (forall x, In x l -> f (h x) = Ret (g x)) ->
  traverse f (map h l) = Ret (map g l).
Proof.
  induction l as [|x l IH]; intros H; [reflexivity|].
  cbn [map traverse]. rewrite (H x) by (now left).
  cbn [mbind outcome_bind bind].
  rewrite IH by (intros y Hy; apply H; now right). reflexivity.
Qed.

Definition has_truth (f : string) : Prop :=
  exists ans v, ans_json fs f = Some ans /\ truth_of param ans = Some v.

Lemma answers_loop_present (fuel i : nat) (st : loop_state) :
  (length (subfolders st) - i < fuel)%nat ->
  (forall f, In f (skipn i (subfolders st)) ->
     isdir fs f = true /\ has_truth f) ->
  answers_loop fs param fuel i st =
    Some (Ret {| subfolders := subfolders st;
                 answer_list :=
                   answer_list st ++ map truth (skipn i (subfolders st));
                 num_list :=
                   num_list st ++ map last_field (skipn i (subfolders st));
                 printed := printed st |}, printed st).
Proof.
  revert i st. induction fuel as [|fuel IH]; intros i st Hf Hall; [lia|].
  cbn [answers_loop].
  destruct (nth_error (subfolders st) i) as [folder|] eqn:Hi.
  - assert (Hlt : (i < length (subfolders st))%nat)
      by (apply nth_error_Some; congruence).
    rewrite (skipn_nth_error _ _ _ Hi) in Hall |- *.
    destruct (Hall folder ltac:(now left)) as [Hdir (ans & v & Hans & Hv)].
    cbv zeta. cbn [subfolders answer_list num_list printed].
    rewrite Hdir, Hans. cbn [negb].
    assert (Htruth : truth folder = v)
      by (unfold truth; now rewrite Hans, Hv).
    assert (Hfound : match ans !! param with
                     | Some v0 => Ret v0
                     | None => match ans !! "gw_log10_A"%string with
                               | Some v0 => Ret v0
                               | None => Raise KeyError
                               end
                     end = Ret v).
    { unfold truth_of in Hv. destruct (ans !! param); [congruence|].
      now rewrite Hv. }
    rewrite Hfound. rewrite IH.
    + cbn [subfolders answer_list num_list printed map].
      rewrite <- !app_assoc, Htruth. reflexivity.
    + cbn [subfolders]. lia.
    + cbn [subfolders]. intros f Hf'. apply Hall. now right.
  - apply nth_error_None in Hi. rewrite skipn_all2 by exact Hi.
    cbn [map]. rewrite !app_nil_r. destruct st; reflexivity.
Qed.

Lemma collect_all_present (subs : list string) :
  sorted_subfolders int_of fs = Ret subs ->
  (forall f, In f (scandir fs) -> isdir fs f = true -> has_truth f) ->
  collect int_of fs param =
    Some (Ret (subs, map truth subs,
               map (fun f => (key_of f, truth f)) subs), []) /\
  (forall f, In f subs -> isdir fs f = true /\ has_truth f).
Proof.
  intros Hs Hall. destruct (sorted_subfolders_ok subs Hs) as [Hsubs Hkeys].
  assert (Hperm : Permutation subs (List.filter (isdir fs) (scandir fs)))
    by (rewrite Hsubs; apply sort_by_perm).
  assert (Hsorted : StronglySorted (key_le key_of) subs)
    by (rewrite Hsubs; apply sort_by_sorted).
  assert (Hin : forall f, In f subs -> isdir fs f = true /\ has_truth f).
  { intros f Hf. apply (Permutation_in _ Hperm) in Hf.
    apply filter_In in Hf. destruct Hf as [Hf Hdir].
    split; [exact Hdir | now apply Hall]. }
  split; [|exact Hin].
  unfold collect. rewrite Hs.
  rewrite answers_loop_present;
    [|cbn [subfolders]; lia | cbn [subfolders skipn]; exact Hin].
  cbn [subfolders answer_list num_list printed app].
  change (skipn 0 subs) with subs.
  rewrite (traverse_map_in int_of last_field key_of subs Hkeys).
  cbn [mbind outcome_bind bind]. unfold column_stack.
  rewrite !length_map, Nat.eqb_refl. cbn [mbind outcome_bind bind].
  rewrite combine_map.
  rewrite (sort_by_map (fun f => (key_of f, truth f)) key_of fst)
    by reflexivity.
  now rewrite (sort_by_id key_of subs Hsorted).
Qed.

(** When every sub-directory has an [ans.json] that holds the parameter or
    ['gw_log10_A'], nothing is printed, the folders are in the order of
    their numbers, and row [i] of the table [a] carries the number and the
    injected value of folder [i]: each chain is compared with its own
    truth.  The value is [ans[param]], and [ans['gw_log10_A']] only when
    [param] is not a key. *)
Theorem pp_plot_truth_of_each_folder (subs : list string) :
  sorted_subfolders int_of fs = Ret subs ->
  (forall f, In f (scandir fs) -> isdir fs f = true -> has_truth f) ->
  collect int_of fs param =
    Some (Ret (subs, map truth subs,
               map (fun f => (key_of f, truth f)) subs), []) /\
  Permutation subs (List.filter (isdir fs) (scandir fs)) /\
  StronglySorted (key_le key_of) subs /\
  (forall f ans, In f subs -> ans_json fs f = Some ans ->
     Some (truth f) = match ans !! param with
                      | Some v => Some v
                      | None => ans !! "gw_log10_A"%string
                      end).
Proof.
  intros Hs Hall. destruct (sorted_subfolders_ok subs Hs) as [Hsubs _].
  destruct (collect_all_present subs Hs Hall) as [Hcol Hin].
  split; [exact Hcol|]. split; [rewrite Hsubs; apply sort_by_perm|].
  split; [rewrite Hsubs; apply sort_by_sorted|].
  intros f ans Hf Hans. destruct (Hin f Hf) as [_ (ans' & v & Hans' & Hv)].
  rewrite Hans in Hans'. injection Hans' as <-.
  unfold truth. rewrite Hans, Hv. exact (eq_sym Hv).
Qed.

(** *** The statistics *)

(** The folders were read, [SlicesCore] gave a chain with one column per
    injected value, and the chain has a row. *)
Definition analysis_reached (subs : list string) (answer_array : list Q)
    (a : list (Z * Q)) (out : list message) (chain : ndarray) : Prop :=
  collect int_of fs param = Some (Ret (subs, answer_array, a), out) /\
  (exists pars, read_pars fs subs = Some pars /\
                SlicesCore subs [param] pars = Ret chain) /\
  ncols chain = length answer_array /\
  (0 < ncols chain)%nat /\ (0 < nrows chain)%nat.

Lemma collect_shape (subs : list string) (answer_array : list Q)
    (a : list (Z * Q)) (out : list message) :
  collect int_of fs param = Some (Ret (subs, answer_array, a), out) ->
  length a = length answer_array.
Proof.
  unfold collect.
  destruct (sorted_subfolders int_of fs) as [subs0|e]; [|discriminate].
  destruct (answers_loop fs param (S (length subs0)) 0 _)
    as [[[st|e] out0]|]; [|discriminate|discriminate].
  destruct (traverse int_of (num_list st)) as [nums|e];
    cbn [mbind outcome_bind bind]; [|discriminate].
  unfold column_stack.
  destruct (length nums =? length (answer_list st))%nat eqn:E;
    cbn [mbind outcome_bind bind]; [|discriminate].
  apply Nat.eqb_eq in E. intros H. injection H as _ <- <- _.
  rewrite (Permutation_length (sort_by_perm fst _)), length_combine. lia.
Qed.

Lemma pp_plot_reaches (subs : list string) (answer_array : list Q)
    (a : list (Z * Q)) (out : list message) (chain : ndarray) :
  analysis_reached subs answer_array a out chain ->
  let n := ncols chain in
  let burn := Z.to_nat (Z.of_nat (nrows chain) / 4) in
  let pv := map (fun i => fraction_below (skipn burn (column chain i))
                                         (nth i (map snd a) 0))
                (seq 0 n) in
  pp_plot int_of SlicesCore fs param =
    Some (Ret (Some {| q := linspace 0 1 n;
                       pvalues := pv;
                       cdf := map (fraction_below pv) (linspace 0 1 n);
                       sigma := map (band n) (linspace 0 1 1000) |}), out).
Proof.
  intros (Hc & (pars & Hp & Hs) & Hn & Hc0 & Hr0) n burn pv.
  pose proof (collect_shape _ _ _ _ Hc) as Hlen.
  unfold pp_plot. rewrite Hc, Hp, Hs.
  destruct (ncols chain =? length answer_array)%nat eqn:E;
    [|apply Nat.eqb_neq in E; lia].
  cbn [negb]. rewrite analyse_ok by lia. reflexivity.
Qed.

Lemma fraction_below_range (samples : list Q) (t : Q) :
  (0 < length samples)%nat ->
  0 <= fraction_below samples t /\ fraction_below samples t <= 1.
Proof.
  intros Hlen. unfold fraction_below.
  pose proof (filter_length_le (fun s => Qltb s t) samples) as Hle.
  set (c := length (List.filter (fun s => Qltb s t) samples)) in *.
  assert (Hpos : 0 < inject_Z (Z.of_nat (length samples)))
    by (apply (Grubin.qnat_pos (length samples) Hlen)).
  assert (Hc0 : 0 <= inject_Z (Z.of_nat c))
    by (change 0 with (inject_Z 0); rewrite <- Zle_Qle; lia).
  assert (Hc1 : inject_Z (Z.of_nat c) <= inject_Z (Z.of_nat (length samples)))
    by (rewrite <- Zle_Qle; lia).
  split.
  - apply Qle_shift_div_l; [exact Hpos | lra].
  - apply Qle_shift_div_r; [exact Hpos | lra].
Qed.

Lemma filter_length_mono {A : Type} (f g : A -> bool) (l : list A) :
  (forall x, f x = true -> g x = true) ->
  (length (List.filter f l) <= length (List.filter g l))%nat.
Proof.
  intros H. induction l as [|x l IH]; [reflexivity|]. cbn [List.filter].
  destruct (f x) eqn:Ef.
  - rewrite (H x Ef). cbn [length]. lia.
  - destruct (g x); cbn [length]; lia.
Qed.

Lemma fraction_below_mono (samples : list Q) (t t' : Q) :
  (0 < length samples)%nat -> t <= t' ->
  fraction_below samples t <= fraction_below samples t'.
Proof.
  intros Hlen Ht. unfold fraction_below.
  assert (Hpos : 0 < inject_Z (Z.of_nat (length samples)))
    by (apply (Grubin.qnat_pos (length samples) Hlen)).
  assert (Hc : (length (List.filter (fun s => Qltb s t) samples)
                <= length (List.filter (fun s => Qltb s t') samples))%nat).
  { apply filter_length_mono. intros x Hx.
    apply GrubinEdges.Qltb_lt in Hx. apply GrubinEdges.Qltb_lt. lra. }
  apply Qle_shift_div_r; [exact Hpos|].
  unfold Qdiv. rewrite <- Qmult_assoc.
  rewrite (Qmult_comm (/ _)), Qmult_inv_r by lra.
  rewrite Qmult_1_r, <- Zle_Qle. lia.
Qed.

(** The burn-in is the first quarter of the samples, rounded down, and
    the pvalue of chain [i] is the fraction of all its later samples that
    lie strictly below the injected value of row [i] of [a] (no thinning);
    every pvalue lies between 0 and 1. *)
Theorem pp_plot_pvalues (subs : list string) (answer_array : list Q)
    (a : list (Z * Q)) (out : list message) (chain : ndarray) :
  analysis_reached subs answer_array a out chain ->
  let burn := (nrows chain / 4)%nat in
  exists res,
    pp_plot int_of SlicesCore fs param = Some (Ret (Some res), out) /\
    (4 * burn <= nrows chain < 4 * burn + 4)%nat /\
    length (pvalues res) = ncols chain /\
    forall i, (i < ncols chain)%nat ->
      let kept := skipn burn (column chain i) in
      length kept = (nrows chain - burn)%nat /\
      (forall r, (r < nrows chain - burn)%nat ->
         nth r kept 0 = entry chain (burn + r) i) /\
      nth i (pvalues res) 0 = fraction_below kept (nth i (map snd a) 0) /\
      0 <= nth i (pvalues res) 0 <= 1.
Proof.
  intros Hreach burn. pose proof (pp_plot_reaches _ _ _ _ _ Hreach) as Hpp.
  cbv zeta in Hpp.
  destruct Hreach as (Hc & _ & Hn & Hc0 & Hr0).
  assert (Hb : Z.to_nat (Z.of_nat (nrows chain) / 4) = burn).
  { subst burn. change 4%Z with (Z.of_nat 4).
    now rewrite <- Nat2Z.inj_div, Nat2Z.id. }
  rewrite Hb in Hpp. eexists. split; [exact Hpp|].
  cbn [pvalues].
  assert (Hdiv : (4 * burn <= nrows chain < 4 * burn + 4)%nat).
  { subst burn. pose proof (Nat.div_mod_eq (nrows chain) 4).
    pose proof (Nat.mod_upper_bound (nrows chain) 4). lia. }
  split; [exact Hdiv|]. split; [now rewrite length_map, length_seq|].
  intros i Hi. set (kept := skipn burn (column chain i)).
  assert (Hk : length kept = (nrows chain - burn)%nat)
    by (subst kept; now rewrite length_skipn, column_length).
  split; [exact Hk|]. split.
  { intros r Hr. subst kept. rewrite nth_skipn. unfold column.
    rewrite nth_map_seq by lia. reflexivity. }
  rewrite nth_map_seq by exact Hi. split; [reflexivity|].
  apply fraction_below_range. change (0 < length kept)%nat. lia.
Qed.

Lemma nth_map_default (f : Q -> Q) (l : list Q) (i : nat) :
  (i < length l)%nat -> nth i (map f l) 0 = f (nth i l 0).
Proof.
  intros Hi. rewrite (nth_indep _ 0 (f 0)) by (now rewrite length_map).
  apply map_nth.
Qed.

Lemma linspace_unit_first (n : nat) :
  (1 <= n)%nat -> nth 0 (linspace 0 1 n) 0 == 0.
Proof.
  intros Hn. destruct n as [|[|m]]; [lia| |].
  - cbn. reflexivity.
  - rewrite linspace_unit_nth by lia. unfold qnat. cbn [Z.of_nat].
    unfold Qdiv. ring.
Qed.

Lemma linspace_unit_mono (n i j : nat) :
  (i <= j)%nat -> (j < n)%nat ->
  nth i (linspace 0 1 n) 0 <= nth j (linspace 0 1 n) 0.
Proof.
  intros Hij Hj. destruct (Nat.eq_dec i j) as [->|Hne]; [apply Qle_refl|].
  assert (Hn : (2 <= n)%nat) by lia.
  rewrite !linspace_unit_nth by lia.
  pose proof (Grubin.qnat_pos (n - 1) ltac:(lia)) as Hpos.
  apply Qle_shift_div_l; [exact Hpos|].
  unfold Qdiv. rewrite <- Qmult_assoc.
  rewrite (Qmult_comm (/ _)), Qmult_inv_r by lra.
  rewrite Qmult_1_r. unfold qnat. rewrite <- Zle_Qle. lia.
Qed.


Lemma filter_none {A : Type} (f : A -> bool) (l : list A) :
  (forall x, In x l -> f x = false) -> List.filter f l = [].
Proof.
  induction l as [|x l IH]; intros H; [reflexivity|]. cbn [List.filter].
  rewrite (H x) by (now left). apply IH. intros y Hy. apply H. now right.
Qed.

(** The empirical distribution function that [pp_plot] returns starts at
    0, never decreases along the grid and stays between 0 and 1. *)
Theorem pp_plot_cdf_monotone (subs : list string) (answer_array : list Q)
    (a : list (Z * Q)) (out : list message) (chain : ndarray) :
  analysis_reached subs answer_array a out chain ->
  let n := ncols chain in
  exists res,
    pp_plot int_of SlicesCore fs param = Some (Ret (Some res), out) /\
    length (cdf res) = n /\
    nth 0 (cdf res) 0 == 0 /\
    (forall i, (i < n)%nat -> 0 <= nth i (cdf res) 0 <= 1) /\
    (forall i j, (i <= j)%nat -> (j < n)%nat ->
       nth i (cdf res) 0 <= nth j (cdf res) 0).
Proof.
  intros Hreach n. pose proof (pp_plot_reaches _ _ _ _ _ Hreach) as Hpp.
  cbv zeta in Hpp. fold n in Hpp.
  destruct Hreach as (_ & _ & _ & Hc0 & Hr0).
  set (burn := Z.to_nat (Z.of_nat (nrows chain) / 4)) in *.
  set (pv := map _ (seq 0 n)) in *.
  assert (Hburn : (burn < nrows chain)%nat).
  { subst burn. apply Nat2Z.inj_lt.
    rewrite Z2Nat.id by (apply Z.div_pos; lia). apply Z.div_lt; lia. }
  assert (Hpv : length pv = n)
    by (subst pv; now rewrite length_map, length_seq).
  assert (Hpv0 : forall x, In x pv -> 0 <= x).
  { intros x Hx. subst pv. apply in_map_iff in Hx.
    destruct Hx as [i [<- _]]. apply fraction_below_range.
    rewrite length_skipn, column_length. lia. }
  eexists. split; [exact Hpp|]. cbn [cdf].
  assert (Hq : length (linspace 0 1 n) = n) by apply linspace_length.
  split; [now rewrite length_map|]. split; [|split].
  - rewrite nth_map_default by lia.
    pose proof (linspace_unit_first n ltac:(lia)) as H0.
    unfold fraction_below. rewrite filter_none.
    + cbn [length Z.of_nat]. unfold Qdiv. ring.
    + intros x Hx. apply GrubinEdges.Qltb_false.
      rewrite H0. now apply Hpv0.
  - intros i Hi. rewrite nth_map_default by lia.
    apply fraction_below_range. lia.
  - intros i j Hij Hj. rewrite !nth_map_default by lia.
    apply fraction_below_mono; [lia|]. now apply linspace_unit_mono.
Qed.

(** *** Chains and truths that do not match *)

(** When every sub-directory has its injected value but [SlicesCore]
    returns a chain whose number of columns is not the number of
    sub-directories, [pp_plot] prints the two counts and returns [None];
    nothing else is printed and no statistic is computed. *)
Theorem pp_plot_count_mismatch (subs pars : list string) (chain : ndarray) :
  sorted_subfolders int_of fs = Ret subs ->
  (forall f, In f (scandir fs) -> isdir fs f = true -> has_truth f) ->
  read_pars fs subs = Some pars ->
  SlicesCore subs [param] pars = Ret chain ->
  ncols chain <> length subs ->
  pp_plot int_of SlicesCore fs param =
    Some (Ret None,
          [MsgCountsDiffer; MsgCounts (ncols chain) (length subs)]).
Proof.
  intros Hs Hall Hp Hc Hne.
  destruct (collect_all_present subs Hs Hall) as [Hcol _].
  unfold pp_plot. rewrite Hcol, Hp, Hc. rewrite length_map.
  destruct (ncols chain =? length subs)%nat eqn:E;
    [apply Nat.eqb_eq in E; contradiction|].
  reflexivity.
Qed.

(** *** The claims about [pp_plot] *)

(** C4: when every realization has its injected value and [SlicesCore]
    returns one column per realization (with at least one sample),
    [pp_plot] takes as burn-in [int(0.25 * L)] of the [L] samples, the first
    quarter rounded down (exactly 25% when 4 divides [L]), and the pvalue of
    realization [i] is the fraction, among all the samples after the
    burn-in (every one of them: no thinning), of those strictly below the
    injected value of the [i]-th folder. *)
Theorem pp_plot_burn_in_and_pvalues
    (subs pars : list string) (chain : ndarray) :
  sorted_subfolders int_of fs = Ret subs ->
  (forall f, In f (scandir fs) -> isdir fs f = true -> has_truth f) ->
  read_pars fs subs = Some pars ->
  SlicesCore subs [param] pars = Ret chain ->
  ncols chain = length subs ->
  (0 < ncols chain)%nat -> (0 < nrows chain)%nat ->
  let burn := (nrows chain / 4)%nat in
  exists res,
    pp_plot int_of SlicesCore fs param = Some (Ret (Some res), []) /\
    Z.of_nat burn = int_of_float ((1 # 4) * qnat (nrows chain)) /\
    (4 * burn <= nrows chain < 4 * burn + 4)%nat /\
    ((nrows chain mod 4 = 0)%nat -> (4 * burn = nrows chain)%nat) /\
    tau = 1%nat /\
    length (pvalues res) = length subs /\
    forall i folder, nth_error subs i = Some folder ->
      let kept := map (fun r => entry chain r i)
                      (seq burn (nrows chain - burn)) in
      slice_step (column chain i) burn tau = kept /\
      nth_error (pvalues res) i =
        Some (inject_Z (Z.of_nat
                (length (List.filter (fun s => Qltb s (truth folder)) kept)))
              / inject_Z (Z.of_nat (length kept))).
Proof.
  intros Hs Hall Hp Hc Hn Hc0 Hr0 burn.
  destruct (collect_all_present subs Hs Hall) as [Hcol _].
  assert (Hreach : analysis_reached subs (map truth subs)
                     (map (fun f => (key_of f, truth f)) subs) [] chain).
  { split; [exact Hcol|]. split; [now exists pars|].
    rewrite length_map. repeat split; assumption. }
  pose proof (pp_plot_reaches _ _ _ _ _ Hreach) as Hpp. cbv zeta in Hpp.
  assert (Hb : Z.to_nat (Z.of_nat (nrows chain) / 4) = burn).
  { subst burn. change 4%Z with (Z.of_nat 4).
    now rewrite <- Nat2Z.inj_div, Nat2Z.id. }
  rewrite Hb in Hpp. eexists. split; [exact Hpp|]. cbn [pvalues].
  pose proof (Nat.div_mod_eq (nrows chain) 4) as Hdm.
  pose proof (Nat.mod_upper_bound (nrows chain) 4 ltac:(lia)) as Hmod.
  split.
  { rewrite int_quarter. subst burn. change 4%Z with (Z.of_nat 4).
    now rewrite Nat2Z.inj_div. }
  split; [subst burn; lia|]. split; [intros H0; subst burn; lia|].
  split; [reflexivity|].
  split; [now rewrite length_map, length_seq|].
  intros i folder Hi.
  assert (Hlt : (i < ncols chain)%nat)
    by (rewrite Hn; apply nth_error_Some; congruence).
  assert (Hkept : skipn burn (column chain i) =
                  map (fun r => entry chain r i)
                      (seq burn (nrows chain - burn))).
  { unfold column. now rewrite skipn_map, skipn_seq. }
  cbv zeta. split; [unfold tau; now rewrite slice_step_one|].
  rewrite nth_error_map, nth_error_seq.
  destruct (i <? ncols chain)%nat eqn:E; [|apply Nat.ltb_ge in E; lia].
  cbn [option_map Nat.add]. rewrite Hkept. unfold fraction_below.
  assert (Ht : nth i (map snd (map (fun f => (key_of f, truth f)) subs)) 0
               = truth folder).
  { rewrite map_map. cbn [snd].
    apply nth_error_nth. rewrite nth_error_map, Hi. reflexivity. }
  rewrite Ht. reflexivity.
Qed.



End Calibration.

(** *** A small ensemble *)

(** [int] on an ASCII string, for use on folder names: blanks around the
    number are ignored, a sign may precede the decimal digits, anything else
    is a [ValueError].  (An underscore cannot occur in what follows the last
    underscore of a name.) *)
Fixpoint digits (s : string) (acc : Z) : outcome Z :=
  match s with
  | EmptyString => Ret acc
  | String c rest =>
      let n := nat_of_ascii c in
      if ((48 <=? n) && (n <=? 57))%nat
      then digits rest (10 * acc + Z.of_nat (n - 48))%Z
      else Raise ValueError
  end.

Definition is_blank (c : ascii) : bool :=
  let n := nat_of_ascii c in
  (((9 <=? n) && (n <=? 13)) || ((28 <=? n) && (n <=? 32)))%nat.

Fixpoint lstrip (s : string) : string :=
  match s with
  | EmptyString => EmptyString
  | String c rest => if is_blank c then lstrip rest else s
  end.

Fixpoint rstrip (s : string) : string :=
  match s with
  | EmptyString => EmptyString
  | String c rest =>
      match rstrip rest with
      | EmptyString => if is_blank c then EmptyString else String c EmptyString
      | t => String c t
      end
  end.

Definition unsigned (s : string) : outcome Z :=
  match s with
  | EmptyString => Raise ValueError
  | _ => digits s 0%Z
  end.

Definition decimal (s : string) : outcome Z :=
  match rstrip (lstrip s) with
  | String c rest =>
      if Ascii.eqb c "-"%char then (v ← unsigned rest; Ret (- v)%Z)
      else if Ascii.eqb c "+"%char then unsigned rest
      else unsigned (String c rest)
  | EmptyString => Raise ValueError
  end.

Example decimal_reads :
  decimal "12" = Ret 12%Z /\ decimal "-1" = Ret (-1)%Z /\
  decimal "+7" = Ret 7%Z /\ decimal " 3 " = Ret 3%Z /\
  decimal "old" = Raise ValueError /\ decimal "" = Raise ValueError /\
  decimal "-" = Raise ValueError /\ decimal "1 2" = Raise ValueError.
Proof. repeat split; reflexivity. Qed.

(** Three realizations and a stray file; the folders named in [missing]
    have no [ans.json]. *)
Definition ensemble (missing : list string) : filesystem :=
  {| scandir := ["sims/psr_2"; "sims/psr_10"; "sims/notes.txt";
                 "sims/psr_1"]%string;
     isdir := fun f => negb (String.eqb f "sims/notes.txt");
     ans_json := fun f =>
       if PlotChains.mem f missing then None
       else Some {[ "gw_log10_A"%string :=
                      inject_Z (Z.of_nat (String.length f)) ]};
     pars_txt := fun f => Some ["gw_log10_A"; "lnpost"; ""]%string |}.

(** Eight samples per chain: column [c] holds 6 + c, ..., 13 + c. *)
Definition ensemble_chain (n : nat) : ndarray :=
  {| nrows := 8; ncols := n;
     entry := fun r c => inject_Z (Z.of_nat (r + 6 + c)) |}.

Definition ensemble_slices (n : nat)
  : list string -> list string -> list string -> outcome ndarray :=
  fun _ _ _ => Ret (ensemble_chain n).

Definition ensemble_folders : list string :=
  ["sims/psr_1"; "sims/psr_2"; "sims/psr_10"]%string.

Lemma ensemble_reached :
  analysis_reached decimal (ensemble_slices 3) (ensemble []) "gw_log10_A"
    ensemble_folders [10; 10; 11]
    [(1%Z, 10); (2%Z, 10); (10%Z, 11)] [] (ensemble_chain 3).
Proof.
  split; [vm_compute; reflexivity|]. split.
  - exists ["gw_log10_A"; "lnpost"]%string. split; reflexivity.
  - repeat split; cbn; lia.
Qed.

Lemma ensemble_has_truth (f : string) :
  In f (scandir (ensemble [])) -> isdir (ensemble []) f = true ->
  has_truth (ensemble []) "gw_log10_A" f.
Proof.
  intros _ _. eexists _, _. split; [reflexivity|].
  unfold truth_of. rewrite lookup_singleton_eq. reflexivity.
Qed.

Lemma pp_plot_folder_without_number_witness :
  exists e',
    sorted_subfolders decimal
      {| scandir := ["sims/psr_1"; "sims/old"]%string;
         isdir := fun _ => true;
         ans_json := fun _ => None;
         pars_txt := fun _ => None |} = Raise e' /\
    pp_plot decimal (ensemble_slices 3)
      {| scandir := ["sims/psr_1"; "sims/old"]%string;
         isdir := fun _ => true;
         ans_json := fun _ => None;
         pars_txt := fun _ => None |} "gw_log10_A" = Some (Raise e', []).
Proof.
  apply (pp_plot_folder_without_number decimal (ensemble_slices 3) _
           "gw_log10_A" "sims/old" ValueError);
    [cbn; tauto | reflexivity | reflexivity].
Defined.

Lemma pp_plot_no_subfolder_witness :
  pp_plot decimal (ensemble_slices 3)
    {| scandir := ["sims/notes.txt"]%string;
       isdir := fun _ => false;
       ans_json := fun _ => None;
       pars_txt := fun _ => None |} "gw_log10_A"
  = Some (Ret None, [MsgParamsNotFound]).
Proof.
  apply (pp_plot_no_subfolder decimal (ensemble_slices 3)).
  intros f _. reflexivity.
Defined.

Lemma pp_plot_missing_answer_raises_witness :
  exists e out,
    pp_plot decimal (ensemble_slices 3) (ensemble ["sims/psr_2"]%string)
            "gw_log10_A" = Some (Raise e, out).
Proof.
  apply (pp_plot_missing_answer_raises decimal (ensemble_slices 3)
           (ensemble ["sims/psr_2"]%string) "gw_log10_A" "sims/psr_2");
    [cbn; tauto | reflexivity | reflexivity].
Defined.

(** On the ensemble above, with the second folder lacking its
    [ans.json]: the two messages are printed and the call ends in the
    [ValueError] of [np.column_stack]. *)
Lemma pp_plot_missing_answer_example :
  pp_plot decimal (ensemble_slices 3) (ensemble ["sims/psr_2"]%string)
          "gw_log10_A"
  = Some (Raise ValueError,
          [MsgNeedAnsJson; MsgFolderSkipped "sims/psr_2"]).
Proof. vm_compute. reflexivity. Qed.

Lemma pp_plot_none_is_reported_witness :
  (exists out0, [MsgCountsDiffer; MsgCounts 5 3] = out0 ++ [MsgParamsNotFound])
  \/ (exists out0 chains truths,
        [MsgCountsDiffer; MsgCounts 5 3]
          = out0 ++ [MsgCountsDiffer; MsgCounts chains truths] /\
        chains <> truths).
Proof.
  apply (pp_plot_none_is_reported decimal (ensemble_slices 5) (ensemble [])
           "gw_log10_A").
  vm_compute. reflexivity.
Defined.

Lemma pp_plot_truth_of_each_folder_witness :
  collect decimal (ensemble []) "gw_log10_A" =
    Some (Ret (ensemble_folders,
               map (truth (ensemble []) "gw_log10_A") ensemble_folders,
               map (fun f => (key_of decimal f,
                              truth (ensemble []) "gw_log10_A" f))
                   ensemble_folders), []) /\
  Permutation ensemble_folders
    (List.filter (isdir (ensemble [])) (scandir (ensemble []))) /\
  StronglySorted (key_le (key_of decimal)) ensemble_folders /\
  (forall f ans, In f ensemble_folders ->
     ans_json (ensemble []) f = Some ans ->
     Some (truth (ensemble []) "gw_log10_A" f) =
       match ans !! "gw_log10_A"%string with
       | Some v => Some v
       | None => ans !! "gw_log10_A"%string
       end).
Proof.
  apply (pp_plot_truth_of_each_folder decimal (ensemble []) "gw_log10_A"
           ensemble_folders);
    [vm_compute; reflexivity | exact ensemble_has_truth].
Defined.

Lemma pp_plot_count_mismatch_witness :
  pp_plot decimal (ensemble_slices 5) (ensemble []) "gw_log10_A" =
    Some (Ret None,
          [MsgCountsDiffer;
           MsgCounts (ncols (ensemble_chain 5)) (length ensemble_folders)]).
Proof.
  apply (pp_plot_count_mismatch decimal (ensemble_slices 5) (ensemble [])
           "gw_log10_A" ensemble_folders ["gw_log10_A"; "lnpost"]%string
           (ensemble_chain 5));
    [vm_compute; reflexivity | exact ensemble_has_truth | reflexivity
    | reflexivity | cbn; lia].
Defined.

Lemma pp_plot_pvalues_witness :
  exists res,
    pp_plot decimal (ensemble_slices 3) (ensemble []) "gw_log10_A"
      = Some (Ret (Some res), []) /\
    length (pvalues res) = 3%nat /\
    nth 0 (pvalues res) 0 =
      fraction_below (skipn 2 (column (ensemble_chain 3) 0)) 10.
Proof.
  destruct (pp_plot_pvalues decimal (ensemble_slices 3) (ensemble [])
              "gw_log10_A" _ _ _ _ _ ensemble_reached)
    as [res (Hpp & _ & Hlen & Hpv)].
  exists res. split; [exact Hpp|]. split; [exact Hlen|].
  destruct (Hpv 0%nat ltac:(cbn; lia)) as (_ & _ & H0 & _). exact H0.
Defined.


Lemma pp_plot_cdf_monotone_witness :
  exists res,
    pp_plot decimal (ensemble_slices 3) (ensemble []) "gw_log10_A"
      = Some (Ret (Some res), []) /\
    nth 0 (cdf res) 0 == 0 /\
    nth 1 (cdf res) 0 <= nth 2 (cdf res) 0.
Proof.
  destruct (pp_plot_cdf_monotone decimal (ensemble_slices 3) (ensemble [])
              "gw_log10_A" _ _ _ _ _ ensemble_reached)
    as [res (Hpp & _ & H0 & _ & Hmono)].
  exists res. split; [exact Hpp|]. split; [exact H0|].
  apply Hmono; cbn; lia.
Defined.

(** *** The claims on small ensembles *)


Lemma pp_plot_burn_in_and_pvalues_witness :
  exists res,
    pp_plot decimal (ensemble_slices 3) (ensemble []) "gw_log10_A"
      = Some (Ret (Some res), []) /\
    length (pvalues res) = length ensemble_folders /\
    nth_error (pvalues res) 2 =
      Some (inject_Z (Z.of_nat
              (length (List.filter
                         (fun s => Qltb s (truth (ensemble []) "gw_log10_A"
                                                 "sims/psr_10"))
                         (map (fun r => entry (ensemble_chain 3) r 2)
                              (seq 2 6)))))
            / inject_Z (Z.of_nat 6)).
Proof.
  destruct (pp_plot_burn_in_and_pvalues decimal (ensemble_slices 3)
              (ensemble []) "gw_log10_A" ensemble_folders
              ["gw_log10_A"; "lnpost"]%string (ensemble_chain 3))
    as [res (Hpp & _ & _ & _ & _ & Hlen & Hpv)];
    [vm_compute; reflexivity | exact ensemble_has_truth | reflexivity
    | reflexivity | reflexivity | cbn; lia | cbn; lia |].
  exists res. split; [exact Hpp|]. split; [exact Hlen|].
  destruct (Hpv 2%nat "sims/psr_10"%string eq_refl) as [_ H2]. exact H2.
Defined.



(** C7 fails on the code.  Three realizations, the first without its
    [ans.json]: the two messages are printed and the folder is removed from
    the list under iteration, but its number stays in [num_list] and the
    iterator then passes over the second folder, which has its [ans.json];
    the loop ends with two numbers and one injected value, and
    [np.column_stack] raises [ValueError].  No result is produced over the
    remaining realizations. *)
Theorem pp_plot_skipped_folder_is_fatal :
  sorted_subfolders decimal (ensemble ["sims/psr_1"]%string)
    = Ret ensemble_folders /\
  ans_json (ensemble ["sims/psr_1"]%string) "sims/psr_2" <> None /\
  answers_loop (ensemble ["sims/psr_1"]%string) "gw_log10_A" 4 0
    {| subfolders := ensemble_folders; answer_list := [];
       num_list := []; printed := [] |}
  = Some (Ret {| subfolders := ["sims/psr_2"; "sims/psr_10"]%string;
                 answer_list := [11];
                 num_list := ["1"; "10"]%string;
                 printed := [MsgNeedAnsJson;
                             MsgFolderSkipped "sims/psr_1"] |},
          [MsgNeedAnsJson; MsgFolderSkipped "sims/psr_1"]) /\
  pp_plot decimal (ensemble_slices 2) (ensemble ["sims/psr_1"]%string)
          "gw_log10_A"
  = Some (Raise ValueError, [MsgNeedAnsJson; MsgFolderSkipped "sims/psr_1"]).
Proof.
  split; [vm_compute; reflexivity|]. split; [discriminate|].
  split; vm_compute; reflexivity.
Qed.

End PPPlot.

(** ** [plot_neff]: the points that are plotted *)

Module PlotNeff.

Import ComputeNeff.

(** [sorted(neffs.items())]: the keys differ, so the order is that of the
    keys. *)
Fixpoint insert_item (x : string * npq) (l : list (string * npq))
  : list (string * npq) :=
  match l with
  | [] => [x]
  | y :: rest =>
      if String.leb (fst x) (fst y) then x :: l else y :: insert_item x rest
  end.

Definition sorted_items (neffs : gmap string npq) : list (string * npq) :=
  fold_right insert_item [] (map_to_list neffs).

(** The unpacking [x, y = zip( *items )]: with no item there is nothing to
    unpack. *)
Definition unzip_items (items : list (string * npq))
  : outcome (list string * list npq) :=
  match items with
  | [] => Raise ValueError
  | _ :: _ => Ret (map fst items, map snd items)
  end.

(** [range(n)]. *)
Definition py_range (n : Z) : list Z := map Z.of_nat (seq 0 (Z.to_nat n)).

(** [plt.scatter(x, y)]: matplotlib wants [x] and [y] of the same size. *)
Definition scatter (x : list Z) (y : list npq) : outcome (list (Z * npq)) :=
  if (length x =? length y)%nat then Ret (combine x y) else Raise ValueError.

Section Estimator.

Variable integrated_time : list Q -> npq.

(** Lines 351-353 and 357-360 for one core: the points handed to
    [plt.scatter]. *)
Definition neff_points (c : core) : outcome (list (Z * npq)) :=
  let neffs := compute_neff integrated_time c in
  '(x, y) ← unzip_items (sorted_items neffs);
  scatter (py_range (Z.of_nat (length (params c)) - 4)) y.

(** Lines 349-361: a single core, or the cores of a list one after the
    other. *)
Definition plot_neff (core : core + list core)
  : outcome (list (list (Z * npq))) :=
  match core with
  | inl c => pts ← neff_points c; Ret [pts]
  | inr cores => PPPlot.traverse neff_points cores
  end.

Definition kept (c : core) : list string :=
  List.filter (fun p => negb (PlotChains.mem p bookkeeping)) (params c).

Lemma insert_item_perm (x : string * npq) (l : list (string * npq)) :
  Permutation (insert_item x l) (x :: l).
Proof.
  induction l as [|y l IH]; cbn [insert_item]; [reflexivity|].
  destruct (String.leb (fst x) (fst y)); [reflexivity|].
  rewrite IH. apply perm_swap.
Qed.

Lemma sorted_items_perm (neffs : gmap string npq) :
  Permutation (sorted_items neffs) (map_to_list neffs).
Proof.
  unfold sorted_items. induction (map_to_list neffs) as [|x l IH];
    [reflexivity|].
  cbn [fold_right]. rewrite insert_item_perm. now apply perm_skip.
Qed.

Lemma compute_neff_dom (c : core) :
  dom (compute_neff integrated_time c) = (list_to_set (kept c) : gset string).
Proof.
  apply set_eq. intros p.
  rewrite elem_of_dom, compute_neff_lookup, elem_of_list_to_set.
  unfold kept. rewrite list_elem_of_In, filter_In, <- list_elem_of_In.
  rewrite <- mem_elem_of.
  destruct (PlotChains.mem p (params c));
    destruct (PlotChains.mem p bookkeeping); cbn [andb negb]; split;
    try (intros [v Hv]; discriminate);
    try (intros [H1 H2]; discriminate).
  - intros _. split; reflexivity.
  - intros _. eexists. reflexivity.
Qed.

(** The number of entries of the dictionary. *)
Lemma compute_neff_size (c : core) :
  List.NoDup (params c) ->
  size (compute_neff integrated_time c) = length (kept c).
Proof.
  intros Hnd. rewrite <- size_dom, compute_neff_dom.
  apply size_list_to_set. apply NoDup_ListNoDup.
  unfold kept. now apply List.NoDup_filter.
Qed.

Lemma neff_points_cases (c : core) :
  List.NoDup (params c) ->
  neff_points c =
    if ((length (kept c) =? 0)%nat ||
        negb (Z.to_nat (Z.of_nat (length (params c)) - 4)
              =? length (kept c))%nat)%bool
    then Raise ValueError
    else Ret (combine (py_range (Z.of_nat (length (params c)) - 4))
                      (map snd (sorted_items
                                  (compute_neff integrated_time c)))).
Proof.
  intros Hnd. unfold neff_points. cbv zeta.
  pose proof (compute_neff_size c Hnd) as Hsize.
  pose proof (Permutation_length
                (sorted_items_perm (compute_neff integrated_time c))) as Hlen.
  rewrite length_map_to_list, Hsize in Hlen.
  destruct (sorted_items (compute_neff integrated_time c)) as [|it items]
    eqn:Hit.
  - cbn [length] in Hlen. rewrite <- Hlen. reflexivity.
  - cbn [unzip_items mbind outcome_bind bind]. unfold scatter, py_range.
    rewrite !length_map, length_seq. cbn [length] in Hlen |- *.
    rewrite <- Hlen. cbn [Nat.eqb orb]. 
    destruct (Z.to_nat (Z.of_nat (length (params c)) - 4)
              =? S (length items))%nat; reflexivity.
Qed.

Lemma bookkeeping_NoDup : List.NoDup bookkeeping.
Proof.
  unfold bookkeeping.
  repeat (apply List.NoDup_cons;
          [cbn; intros H;
           repeat (destruct H as [H|H]; [discriminate|]); exact H |]).
  apply List.NoDup_nil.
Qed.

Lemma kept_length (c : core) :
  (length (List.filter (fun p => PlotChains.mem p bookkeeping) (params c))
   + length (kept c) = length (params c))%nat.
Proof. unfold kept. apply filter_length. Qed.

(** The dictionary, entry by entry. *)
Lemma compute_neff_items (c : core) :
  List.NoDup (params c) ->
  Permutation (map_to_list (compute_neff integrated_time c))
              (map (fun p => (p, neff_of integrated_time (samples c p)))
                   (kept c)).
Proof.
  intros Hnd. apply Permutation.NoDup_Permutation.
  - apply (proj1 (NoDup_ListNoDup _)), NoDup_map_to_list.
  - apply Finite.Injective_map_NoDup.
    + intros x y H. now injection H.
    + unfold kept. now apply List.NoDup_filter.
  - intros [k v]. rewrite <- list_elem_of_In, elem_of_map_to_list.
    rewrite compute_neff_lookup, in_map_iff. unfold kept. split.
    + destruct (PlotChains.mem k (params c)) eqn:Ek; [|discriminate].
      destruct (PlotChains.mem k bookkeeping) eqn:Eb; [discriminate|].
      cbn [andb negb]. intros H. injection H as <-.
      exists k. split; [reflexivity|]. apply filter_In.
      split; [now apply PlotChainsSelection.mem_In | now rewrite Eb].
    + intros [p [H Hp]]. injection H as Hk Hv. subst k v.
      apply filter_In in Hp. destruct Hp as [Hp Hb].
      apply PlotChainsSelection.mem_In in Hp. rewrite Hp.
      destruct (PlotChains.mem p bookkeeping); [discriminate | reflexivity].
Qed.

(** For a core whose parameters are duplicate-free and comprise the four
    bookkeeping names and at least one more, [plot_neff] plots one point
    per remaining parameter: abscissae 0, 1, ..., and as ordinates the
    effective sample sizes of exactly those parameters. *)
Theorem plot_neff_points_match (c : core) :
  List.NoDup (params c) ->
  (forall b, In b bookkeeping -> In b (params c)) ->
  (4 < length (params c))%nat ->
  exists pts,
    neff_points c = Ret pts /\
    length pts = (length (params c) - 4)%nat /\
    map fst pts = py_range (Z.of_nat (length (params c)) - 4) /\
    Permutation (map snd pts)
      (map (fun p => neff_of integrated_time (samples c p)) (kept c)).
Proof.
  intros Hnd Hbk Hlen.
  assert (Hfour : length (List.filter
                            (fun p => PlotChains.mem p bookkeeping)
                            (params c)) = 4%nat).
  { change 4%nat with (length bookkeeping). apply Permutation_length.
    apply Permutation.NoDup_Permutation.
    - now apply List.NoDup_filter.
    - exact bookkeeping_NoDup.
    - intros x. rewrite filter_In, PlotChainsSelection.mem_In. split; [tauto|].
      intros Hx. split; [now apply Hbk | exact Hx]. }
  pose proof (kept_length c) as Hk. rewrite Hfour in Hk.
  assert (Hkept : length (kept c) = (length (params c) - 4)%nat) by lia.
  pose proof (Permutation_length
                (sorted_items_perm (compute_neff integrated_time c))) as Hs.
  rewrite length_map_to_list, (compute_neff_size c Hnd) in Hs.
  rewrite (neff_points_cases c Hnd).
  replace (Z.to_nat (Z.of_nat (length (params c)) - 4))
    with (length (kept c)) by lia.
  rewrite Nat.eqb_refl.
  destruct (length (kept c) =? 0)%nat eqn:E0; [apply Nat.eqb_eq in E0; lia|].
  cbn [orb negb]. eexists. split; [reflexivity|].
  assert (Hr : length (py_range (Z.of_nat (length (params c)) - 4))
               = length (kept c)).
  { unfold py_range. rewrite length_map, length_seq. lia. }
  split; [rewrite length_combine, length_map, Hs, Hr; lia|].
  split.
  { clear -Hs Hr. rewrite <- Hs in Hr. rewrite <- (length_map snd) in Hr.
    revert Hr. generalize (map snd (sorted_items
                                      (compute_neff integrated_time c))).
    induction (py_range (Z.of_nat (length (params c)) - 4)) as [|x xs IH];
      intros [|y ys] H; try discriminate; [reflexivity|].
    cbn [combine map fst]. f_equal. apply IH. now injection H. }
  assert (Hsnd : map snd (combine
                   (py_range (Z.of_nat (length (params c)) - 4))
                   (map snd (sorted_items (compute_neff integrated_time c))))
                 = map snd (sorted_items (compute_neff integrated_time c))).
  { clear -Hs Hr. rewrite <- Hs in Hr. rewrite <- (length_map snd) in Hr.
    revert Hr. generalize (map snd (sorted_items
                                      (compute_neff integrated_time c))).
    induction (py_range (Z.of_nat (length (params c)) - 4)) as [|x xs IH];
      intros [|y ys] H; try discriminate; [reflexivity|].
    cbn [combine map snd]. f_equal. apply IH. now injection H. }
  rewrite Hsnd, sorted_items_perm, (compute_neff_items c Hnd), map_map.
  reflexivity.
Qed.

(** For a core with duplicate-free parameters that lacks one of the four
    bookkeeping names, [plot_neff] raises [ValueError]: either there is
    nothing to unpack, or [plt.scatter] gets fewer abscissae (the number of
    parameters minus 4) than ordinates. *)
Theorem plot_neff_needs_bookkeeping (c : core) (b : string) :
  List.NoDup (params c) -> In b bookkeeping -> ~ In b (params c) ->
  neff_points c = Raise ValueError /\
  plot_neff (inl c) = Raise ValueError.
Proof.
  intros Hnd Hb Hnot.
  assert (Hthree : (length (List.filter
                              (fun p => PlotChains.mem p bookkeeping)
                              (params c)) <= 3)%nat).
  { assert (H3 : length (List.remove String.string_dec b bookkeeping)
                 = 3%nat).
    { destruct Hb as [<-|[<-|[<-|[<-|[]]]]]; reflexivity. }
    rewrite <- H3. apply NoDup_incl_length.
    - now apply List.NoDup_filter.
    - intros x Hx. apply filter_In in Hx. destruct Hx as [Hx Hm].
      apply in_in_remove; [|now apply PlotChainsSelection.mem_In].
      intros ->. contradiction. }
  pose proof (kept_length c) as Hk.
  assert (Hp : neff_points c = Raise ValueError).
  { rewrite (neff_points_cases c Hnd).
    destruct (length (kept c) =? 0)%nat eqn:E0; [reflexivity|].
    apply Nat.eqb_neq in E0.
    destruct (Z.to_nat (Z.of_nat (length (params c)) - 4)
              =? length (kept c))%nat eqn:E;
      [apply Nat.eqb_eq in E; lia | reflexivity]. }
  split; [exact Hp|]. cbn [plot_neff]. now rewrite Hp.
Qed.

End Estimator.

(** The parameters of a sampler that was run without parallel
    tempering. *)
Definition core_without_pt : core :=
  {| params := ["J1713_efac"; "gw_log10_A"; "lnpost"; "lnlike";
                "chain_accept"]%string;
     samples := fun p => [1; 2; 3; 4]%Q |}.

Lemma demo_core_NoDup : List.NoDup (params demo_core).
Proof.
  cbn [params demo_core].
  repeat (apply List.NoDup_cons;
          [cbn; intros H;
           repeat (destruct H as [H|H]; [discriminate|]); exact H |]).
  apply List.NoDup_nil.
Qed.

Lemma core_without_pt_NoDup : List.NoDup (params core_without_pt).
Proof.
  cbn [params core_without_pt].
  repeat (apply List.NoDup_cons;
          [cbn; intros H;
           repeat (destruct H as [H|H]; [discriminate|]); exact H |]).
  apply List.NoDup_nil.
Qed.

Lemma plot_neff_points_match_witness :
  exists pts,
    neff_points (fun chain => Finite 2) demo_core = Ret pts /\
    length pts = (length (params demo_core) - 4)%nat /\
    map fst pts = py_range (Z.of_nat (length (params demo_core)) - 4) /\
    Permutation (map snd pts)
      (map (fun p => neff_of (fun chain => Finite 2) (samples demo_core p))
           (kept demo_core)).
Proof.
  apply (plot_neff_points_match (fun chain => Finite 2) demo_core).
  - exact demo_core_NoDup.
  - intros b Hb. cbn in Hb |- *. tauto.
  - cbn. lia.
Defined.

Lemma plot_neff_needs_bookkeeping_witness :
  neff_points (fun chain => Finite 2) core_without_pt = Raise ValueError /\
  plot_neff (fun chain => Finite 2) (inl core_without_pt) = Raise ValueError.
Proof.
  apply (plot_neff_needs_bookkeeping (fun chain => Finite 2) core_without_pt
           "pt_chain_accept").
  - exact core_without_pt_NoDup.
  - cbn. tauto.
  - cbn. intros H. repeat (destruct H as [H|H]; [discriminate|]). exact H.
Defined.

End PlotNeff.

(** ** [noise_flower]: pulsar name and model letters *)

Module NoiseFlower.

(** [p.split('_')[0]]: what precedes the first underscore, the whole string
    when there is none. *)
Fixpoint first_field (p : string) : string :=
  match p with
  | EmptyString => EmptyString
  | String c rest =>
      if Ascii.eqb c "_"%char then EmptyString
      else String c (first_field rest)
  end.

(** [s[0] in ['B', 'J']]. *)
Definition starts_B_or_J (s : string) : outcome bool :=
  match s with
  | EmptyString => Raise IndexError
  | String c _ => Ret (Ascii.eqb c "B"%char || Ascii.eqb c "J"%char)
  end.

(** Lines 263-264: the list comprehension. *)
Fixpoint pos_names (params : list string) : outcome (list string) :=
  match params with
  | [] => Ret []
  | p :: rest =>
      keep ← starts_B_or_J (first_field p);
      names ← pos_names rest;
      Ret (if keep : bool then first_field p :: names else names)
  end.

(** Lines 262-265. *)
Definition pulsar_name (params : list string) (psrname : option string)
  : outcome string :=
  match psrname with
  | Some name => Ret name
  | None =>
      names ← pos_names params;
      match names with
      | [] => Raise IndexError
      | name :: _ => Ret name
      end
  end.

Definition ascii_uppercase : list ascii :=
  list_ascii_of_string "ABCDEFGHIJKLMNOPQRSTUVWXYZ".

(** [dict(zip(range(1, 27), string.ascii_uppercase))]. *)
Definition mod_letter_dict : gmap Z ascii :=
  list_to_map (combine (map Z.of_nat (seq 1 26)) ascii_uppercase).

(** Lines 268-269. *)
Definition mod_letters (nmodels : Z) : outcome (list ascii) :=
  PPPlot.traverse
    (fun ii : Z => match mod_letter_dict !! (ii + 1)%Z with
               | Some letter => Ret letter
               | None => Raise KeyError
               end)
    (PlotNeff.py_range nmodels).

(** Lines 260-269: the name in the title and the letters of the models. *)
Definition noise_flower_labels (nmodels : Z) (params : list string)
    (psrname : option string) : outcome (string * list ascii) :=
  name ← pulsar_name params psrname;
  letters ← mod_letters nmodels;
  Ret (name, letters).

Lemma traverse_raise_same {A B : Type} (f : A -> outcome B) (l : list A)
    (e : exn) :
  (forall x, In x l -> f x = Raise e \/ exists y, f x = Ret y) ->
  (exists x, In x l /\ f x = Raise e) ->
  PPPlot.traverse f l = Raise e.
Proof.
  induction l as [|x l IH]; intros Hall [z [Hz Hfz]]; [destruct Hz|].
  cbn [PPPlot.traverse].
  destruct (Hall x ltac:(now left)) as [Hx|[y Hy]].
  - rewrite Hx. reflexivity.
  - rewrite Hy. cbn [mbind outcome_bind bind].
    destruct Hz as [->|Hz]; [congruence|].
    rewrite IH; [reflexivity | | now exists z].
    intros w Hw. apply Hall. now right.
Qed.

Lemma letter_lookup (i : nat) :
  mod_letter_dict !! (Z.of_nat i + 1)%Z =
    if (i <? 26)%nat then Some (ascii_of_nat (65 + i)) else None.
Proof.
  destruct (i <? 26)%nat eqn:E.
  - apply Nat.ltb_lt in E.
    do 26 (destruct i as [|i]; [vm_compute; reflexivity|]). lia.
  - apply Nat.ltb_ge in E. apply not_elem_of_list_to_map_1.
    set (k := (Z.of_nat i + 1)%Z).
    assert (Hk : (26 < k)%Z) by (subst k; lia). clearbody k.
    match goal with
    | |- k ∉ ?L => let L' := eval vm_compute in L in change (k ∉ L')
    end.
    intros H.
    repeat (apply elem_of_cons in H; destruct H as [->|H]; [lia|]).
    now apply elem_of_nil in H.
Qed.

Definition is_B_or_J (s : string) : bool :=
  match s with
  | EmptyString => false
  | String c _ => Ascii.eqb c "B"%char || Ascii.eqb c "J"%char
  end.

Lemma pos_names_ok (params : list string) :
  (forall p, In p params -> first_field p <> EmptyString) ->
  pos_names params = Ret (List.filter is_B_or_J (map first_field params)).
Proof.
  induction params as [|p rest IH]; intros H; [reflexivity|].
  cbn [pos_names map List.filter].
  assert (Hp : first_field p <> EmptyString) by (apply H; now left).
  destruct (first_field p) as [|c s] eqn:E; [congruence|].
  cbn [starts_B_or_J is_B_or_J mbind outcome_bind bind].
  rewrite IH by (intros q Hq; apply H; now right).
  reflexivity.
Qed.

Lemma pos_names_empty_field (params : list string) :
  (exists p, In p params /\ first_field p = EmptyString) ->
  pos_names params = Raise IndexError.
Proof.
  induction params as [|p rest IH]; intros [z [Hz Hfz]]; [destruct Hz|].
  cbn [pos_names]. destruct (first_field p) as [|c s] eqn:E; [reflexivity|].
  cbn [starts_B_or_J mbind outcome_bind bind].
  destruct Hz as [->|Hz]; [congruence|].
  rewrite IH by (now exists z). reflexivity.
Qed.

(** Without [psrname], the name in the title is the part before the first
    underscore of the first parameter for which that part begins with B or
    J.  [IndexError] is raised when no parameter qualifies, and also when
    any parameter at all is empty or begins with an underscore. *)
Theorem noise_flower_pulsar_name :
  (forall pre p post,
     (forall x, In x (pre ++ p :: post) -> first_field x <> EmptyString) ->
     (forall x, In x pre -> is_B_or_J (first_field x) = false) ->
     is_B_or_J (first_field p) = true ->
     pulsar_name (pre ++ p :: post) None = Ret (first_field p)) /\
  (forall params,
     (forall x, In x params -> is_B_or_J (first_field x) = false) ->
     pulsar_name params None = Raise IndexError) /\
  (forall params p,
     In p params -> first_field p = EmptyString ->
     pulsar_name params None = Raise IndexError).
Proof.
  split; [|split].
  - intros pre p post Hne Hpre Hp. unfold pulsar_name.
    rewrite pos_names_ok by exact Hne. cbn [mbind outcome_bind bind].
    rewrite map_app, List.filter_app. cbn [map List.filter]. rewrite Hp.
    assert (Hnil : List.filter is_B_or_J (map first_field pre) = []).
    { apply PPPlot.filter_none. intros x Hx. apply in_map_iff in Hx.
      destruct Hx as [y [<- Hy]]. now apply Hpre. }
    rewrite Hnil. reflexivity.
  - intros params Hnone. unfold pulsar_name.
    destruct (ListDec.In_decidable) with (x := EmptyString)
      (l := map first_field params) as [Hin|Hnin].
    + intros x y. destruct (String.string_dec x y); [now left | now right].
    + apply in_map_iff in Hin. destruct Hin as [p [Hp Hin]].
      rewrite pos_names_empty_field by (now exists p). reflexivity.
    + rewrite pos_names_ok.
      * cbn [mbind outcome_bind bind]. rewrite PPPlot.filter_none;
          [reflexivity|].
        intros x Hx. apply in_map_iff in Hx.
        destruct Hx as [y [<- Hy]]. now apply Hnone.
      * intros p Hp E. apply Hnin. apply in_map_iff. now exists p.
  - intros params p Hp E. unfold pulsar_name.
    rewrite pos_names_empty_field by (now exists p). reflexivity.
Qed.

(** Once the name is known, the models are lettered A, B, C, ... in order;
    with more than 26 models the dictionary of letters has no entry for
    model 27 and [KeyError] is raised. *)
Theorem noise_flower_letters (nmodels : Z) (params : list string)
    (psrname : option string) (name : string) :
  pulsar_name params psrname = Ret name ->
  noise_flower_labels nmodels params psrname =
    if (nmodels <=? 26)%Z
    then Ret (name, map (fun i => ascii_of_nat (65 + i))
                        (seq 0 (Z.to_nat nmodels)))
    else Raise KeyError.
Proof.
  intros Hname. unfold noise_flower_labels. rewrite Hname.
  cbn [mbind outcome_bind bind]. unfold mod_letters, PlotNeff.py_range.
  destruct (nmodels <=? 26)%Z eqn:E.
  - apply Z.leb_le in E.
    rewrite (PPPlot.traverse_map_in _ Z.of_nat
               (fun i => ascii_of_nat (65 + i))); [reflexivity|].
    intros i Hi. apply in_seq in Hi. rewrite letter_lookup.
    destruct (i <? 26)%nat eqn:Ei; [reflexivity|].
    apply Nat.ltb_ge in Ei. lia.
  - apply Z.leb_gt in E. rewrite traverse_raise_same with (e := KeyError);
      [reflexivity| |].
    + intros x Hx. apply in_map_iff in Hx. destruct Hx as [i [<- _]].
      rewrite letter_lookup. destruct (i <? 26)%nat; [right|left];
        eauto.
    + exists 26%Z. split.
      * apply in_map_iff. exists 26%nat. split; [reflexivity|].
        apply in_seq. lia.
      * reflexivity.
Qed.

Lemma noise_flower_letters_witness :
  noise_flower_labels 3 ["lnpost"; "J1713+0747_efac"]%string None =
    if (3 <=? 26)%Z
    then Ret ("J1713+0747"%string,
              map (fun i => ascii_of_nat (65 + i)) (seq 0 (Z.to_nat 3)))
    else Raise KeyError.
Proof.
  apply (noise_flower_letters 3 ["lnpost"; "J1713+0747_efac"]%string None
           "J1713+0747"%string).
  reflexivity.
Defined.

End NoiseFlower.
